(** * Compact bilinear pooling: a shallow embedding of
      [CompactBilinearPooling.py] and the properties of its specification.

    The layer projects two feature maps through two count-sketch matrices,
    multiplies the Fourier transforms of the sketches and transforms back.

    Conventions of the embedding.
    - Scalars (the [float32] entries of tensors) are an abstract type [R]
      with the ring operations; laws are assumed only where a proof needs
      exact arithmetic.
    - A tensor is a contiguous row-major [storage] with its [size], as in
      torch.  The projection sequences given to the constructor are
      [array]s, which record their class (numpy array or torch tensor) and
      their shape: [astype] exists on numpy arrays only, and converts
      nothing in an array of integers or of scalars.
    - [pytorch_fft] is an external library: [Fft] and [Ifft] are its
      documented meaning, the discrete Fourier transform along the last
      axis, with the values [cos (2 pi m / d)], [sin (2 pi m / d)] and
      [1 / d] supplied by the scalar structure.
    - The global torch random generator is a state [generator] threaded
      through [__init__]; the raw output stream of the generator is a
      parameter.
    - Device placement ([.cuda()], [.to(device)]) does not change values
      and is left out. *)

From Stdlib Require Import List ZArith Bool Arith Lia Ring Field.
From Stdlib Require Import QArith Qcanon.
Import ListNotations.

Close Scope Qc_scope.
Close Scope Q_scope.
Open Scope nat_scope.

Set Implicit Arguments.

(** * The program *)

Module Cbp.

(** ** Exceptions and results *)

Inductive exn : Type :=
| AssertionError
| AttributeError
| IndexError
| ValueError
| RuntimeError.

Inductive result (A : Type) : Type :=
| Ok (a : A)
| Raise (e : exn).

Arguments Ok {A} a.
Arguments Raise {A} e.

Definition bind {A B : Type} (m : result A) (k : A -> result B) : result B :=
  match m with
  | Ok a => k a
  | Raise e => Raise e
  end.

Declare Scope result_scope.
Delimit Scope result_scope with result.
Notation "x <- m ;; k" := (bind m (fun x => k))
  (at level 61, m at next level, right associativity) : result_scope.
Notation "' pat <- m ;; k" := (bind m (fun x => match x with pat => k end))
  (at level 61, pat pattern, m at next level, right associativity) : result_scope.
Open Scope result_scope.

Definition is_ok {A : Type} (m : result A) : bool :=
  match m with Ok _ => true | Raise _ => false end.

(** ** Arrays

    A [numpy.ndarray] or a [torch.Tensor], with its shape and its entries
    in row-major order. *)

Inductive array (A : Type) : Type :=
| NdArray (shape : list nat) (data : list A)
| TorchTensor (shape : list nat) (data : list A).

Arguments NdArray {A} shape data.
Arguments TorchTensor {A} shape data.

(** The 1-D numpy array of the entries [l]. *)
Definition array1d {A : Type} (l : list A) : array A := NdArray [length l] l.

(** An operation applied to every entry. *)
Definition array_map {A B : Type} (f : A -> B) (a : array A) : array B :=
  match a with
  | NdArray shape data => NdArray shape (map f data)
  | TorchTensor shape data => TorchTensor shape (map f data)
  end.

(** [a.astype(dtype)]: a method of numpy arrays, absent from torch
    tensors.  Returns the shape and the entries of the converted array. *)
Definition astype {A : Type} (a : array A) : result (list nat * list A) :=
  match a with
  | NdArray shape data => Ok (shape, data)
  | TorchTensor _ _ => Raise AttributeError
  end.

(** ** Shapes *)

Definition numel (s : list nat) : nat := fold_right Nat.mul 1 s.

Fixpoint shape_eqb (s t : list nat) : bool :=
  match s, t with
  | [], [] => true
  | a :: s', b :: t' => (a =? b) && shape_eqb s' t'
  | _, _ => false
  end.

(** torch broadcasting of one dimension. *)
Definition broadcast_dim (a b : nat) : result nat :=
  if a =? b then Ok a
  else if a =? 1 then Ok b
  else if b =? 1 then Ok a
  else Raise RuntimeError.

(** Index of a broadcast operand: a dimension of extent 1 is repeated. *)
Definition bidx (extent i : nat) : nat := if extent =? 1 then 0 else i.

(** ** The global random generator *)

Record generator : Type := mkGenerator { seed : Z; offset : nat }.

(** Computations that read and write the global generator and may raise;
    the generator keeps what was done to it before an exception. *)
Definition M (A : Type) : Type := generator -> result A * generator.

Definition retM {A : Type} (a : A) : M A := fun g => (Ok a, g).

Definition bindM {A B : Type} (m : M A) (k : A -> M B) : M B :=
  fun g =>
    match m g with
    | (Ok a, g') => k a g'
    | (Raise e, g') => (Raise e, g')
    end.

Definition lift {A : Type} (r : result A) : M A := fun g => (r, g).

Declare Scope M_scope.
Delimit Scope M_scope with M.
Notation "x <~ m ;; k" := (bindM m (fun x => k))
  (at level 61, m at next level, right associativity) : M_scope.

(** The result of [m] does not depend on the generator it starts from. *)
Definition state_independent {A : Type} (m : M A) : Prop :=
  forall g1 g2, fst (m g1) = fst (m g2).

(** [torch.random.manual_seed(s)] *)
Definition manual_seed (s : Z) : M unit :=
  fun _ => (Ok tt, mkGenerator s 0).

Declare Scope R_scope.
Delimit Scope R_scope with R.

Section Layer.

(** Scalars. *)
Variable R : Type.
Variables (rO rI : R) (radd rmul rsub : R -> R -> R) (ropp : R -> R).

(** [cos2pi d m] is [cos (2 pi m / d)], [sin2pi d m] is [sin (2 pi m / d)]
    and [inv_n d] is [1 / d]. *)
Variables (cos2pi sin2pi : nat -> nat -> R) (inv_n : nat -> R).

(** [mt_stream s k] is the [k]-th raw draw of the generator seeded with [s]. *)
Variable mt_stream : Z -> nat -> Z.

Hypothesis Rth : ring_theory rO rI radd rmul rsub ropp (@eq R).
Add Ring Rring : Rth.

Notation "0" := rO : R_scope.
Notation "1" := rI : R_scope.
Infix "+" := radd : R_scope.
Infix "*" := rmul : R_scope.
Infix "-" := rsub : R_scope.
Notation "- x" := (ropp x) : R_scope.

(** Conversion of an integer to a scalar (int64 to float32). *)
Definition R_of_pos (p : positive) : R :=
  Pos.iter (fun x => (x + 1)%R) 0%R p.

Definition R_of_Z (z : Z) : R :=
  match z with
  | Z0 => 0%R
  | Zpos p => R_of_pos p
  | Zneg p => (- R_of_pos p)%R
  end.

(** Sum of [f 0 .. f (n-1)]. *)
Definition rsum (n : nat) (f : nat -> R) : R :=
  fold_right (fun i acc => (f i + acc)%R) 0%R (seq 0 n).

Definition rsum_list (l : list R) : R := fold_right radd 0%R l.

(** ** Tensors *)

Record Tensor : Type := mkTensor { size : list nat; storage : list R }.

Definition tensor_wf (t : Tensor) : Prop :=
  length (storage t) = numel (size t).

Definition get (l : list R) (i : nat) : R := nth i l 0%R.

(** Row-major tabulation of [n] entries, and of an [n] by [m] matrix. *)
Definition tab (n : nat) (f : nat -> R) : list R := map f (seq 0 n).

Definition tab2 (n m : nat) (f : nat -> nat -> R) : list R :=
  tab (n * m) (fun idx => f (idx / m) (idx mod m)).

(** Entry [(i, j)] of a matrix with [m] columns. *)
Definition at2 (t : Tensor) (m i j : nat) : R := get (storage t) (i * m + j).

(** Entry [(a, b, c, d)] of a 4-D tensor of size [_; n1; n2; n3]. *)
Definition at4 (t : Tensor) (n1 n2 n3 a b c d : nat) : R :=
  get (storage t) (((a * n1 + b) * n2 + c) * n3 + d).

Definition zeros (s : list nat) : Tensor :=
  mkTensor s (tab (numel s) (fun _ => 0%R)).

(** [t.size(d)] *)
Definition size_at (t : Tensor) (d : nat) : result nat :=
  match nth_error (size t) d with
  | Some n => Ok n
  | None => Raise IndexError
  end.

(** [a, b, c, d = t.size()] *)
Definition unpack4 (s : list nat) : result (nat * nat * nat * nat) :=
  match s with
  | [a; b; c; d] => Ok (a, b, c, d)
  | _ => Raise ValueError
  end.

(** [t.permute(0, 2, 3, 1).contiguous()] *)
Definition permute_0231 (t : Tensor) : result Tensor :=
  match size t with
  | [B; C; H; W] =>
      Ok (mkTensor [B; H; W; C]
            (tab (B * H * W * C) (fun idx =>
               let c := idx mod C in
               let w := (idx / C) mod W in
               let h := (idx / (C * W)) mod H in
               let b := idx / (C * W * H) in
               at4 t C H W b c h w)))
  | _ => Raise RuntimeError
  end.

(** [t.view(-1, c)]: a non-positive [c] is an invalid or ambiguous shape. *)
Definition view_rows (t : Tensor) (c : Z) : result Tensor :=
  let n := numel (size t) in
  if (c <=? 0)%Z then Raise RuntimeError
  else if n mod Z.to_nat c =? 0
       then Ok (mkTensor [n / Z.to_nat c; Z.to_nat c] (storage t))
       else Raise RuntimeError.

(** [t.view(b, h, w, d)]; [d = -1] asks torch to infer the last extent. *)
Definition view4 (t : Tensor) (b h w : nat) (d : Z) : result Tensor :=
  let n := numel (size t) in
  if (d =? -1)%Z then
    if (b * h * w =? 0) || negb (n mod (b * h * w) =? 0)
    then Raise RuntimeError
    else Ok (mkTensor [b; h; w; n / (b * h * w)] (storage t))
  else if (d <? 0)%Z then Raise RuntimeError
  else if n =? b * h * w * Z.to_nat d
       then Ok (mkTensor [b; h; w; Z.to_nat d] (storage t))
       else Raise RuntimeError.

(** [a.mm(b)] *)
Definition mm (a b : Tensor) : result Tensor :=
  match size a, size b with
  | [n; k], [k'; m] =>
      if k =? k'
      then Ok (mkTensor [n; m]
                 (tab2 n m (fun i j =>
                    rsum k (fun l => (at2 a k i l * at2 b m l j)%R))))
      else Raise RuntimeError
  | _, _ => Raise RuntimeError
  end.

(** Element-wise binary operation on matrices, with broadcasting. *)
Definition pointwise (f : R -> R -> R) (a b : Tensor) : result Tensor :=
  match size a, size b with
  | [n1; d1], [n2; d2] =>
      n <- broadcast_dim n1 n2 ;;
      d <- broadcast_dim d1 d2 ;;
      Ok (mkTensor [n; d]
            (tab2 n d (fun i j =>
               f (at2 a d1 (bidx n1 i) (bidx d1 j))
                 (at2 b d2 (bidx n2 i) (bidx d2 j)))))
  | _, _ => Raise RuntimeError
  end.

Definition mul := pointwise rmul.
Definition sub := pointwise rsub.
Definition add := pointwise radd.

(** [afft.Fft()(re, im)]: the discrete Fourier transform of each row,
    [X_k = sum_j x_j exp (-2 pi i j k / d)], real and imaginary parts. *)
Definition Fft (re im : Tensor) : result (Tensor * Tensor) :=
  match size re with
  | [n; d] =>
      if shape_eqb (size re) (size im)
      then Ok (mkTensor [n; d]
                 (tab2 n d (fun r k =>
                    rsum d (fun j =>
                      (at2 re d r j * cos2pi d (j * k)
                       + at2 im d r j * sin2pi d (j * k))%R))),
               mkTensor [n; d]
                 (tab2 n d (fun r k =>
                    rsum d (fun j =>
                      (at2 im d r j * cos2pi d (j * k)
                       - at2 re d r j * sin2pi d (j * k))%R))))
      else Raise RuntimeError
  | _ => Raise RuntimeError
  end.

(** [afft.Ifft()(re, im)]: the inverse transform of each row,
    [x_j = (1 / d) sum_k X_k exp (2 pi i j k / d)]. *)
Definition Ifft (re im : Tensor) : result (Tensor * Tensor) :=
  match size re with
  | [n; d] =>
      if shape_eqb (size re) (size im)
      then Ok (mkTensor [n; d]
                 (tab2 n d (fun r j =>
                    (inv_n d *
                     rsum d (fun k =>
                       (at2 re d r k * cos2pi d (k * j)
                        - at2 im d r k * sin2pi d (k * j))%R))%R)),
               mkTensor [n; d]
                 (tab2 n d (fun r j =>
                    (inv_n d *
                     rsum d (fun k =>
                       (at2 im d r k * cos2pi d (k * j)
                        + at2 re d r k * sin2pi d (k * j))%R))%R)))
      else Raise RuntimeError
  | _ => Raise RuntimeError
  end.

(** [t.sum(dim=1)] *)
Definition sum_dim1 (t : Tensor) : result Tensor :=
  match size t with
  | a :: b :: rest =>
      let r := numel rest in
      Ok (mkTensor (a :: rest)
            (tab2 a r (fun i j =>
               rsum b (fun l => get (storage t) ((i * b + l) * r + j)))))
  | _ => Raise IndexError
  end.

(** ** Sketch matrices *)

(** [torch.sparse.FloatTensor(indices.t(), values, Size([n, m])).to_dense()]:
    entry [(i, j)] is the sum of the values stored at index [(i, j)]. *)
Definition to_dense (indices : list (nat * nat)) (values : list R)
    (n m : nat) : Tensor :=
  mkTensor [n; m]
    (tab2 n m (fun i j =>
       rsum_list
         (map (fun e : nat * nat * R =>
                 if (fst (fst e) =? i) && (snd (fst e) =? j)
                 then snd e else 0%R)
              (combine indices values)))).

Definition generate_sketch_matrix (rand_h : array Z) (rand_s : array R)
    (output_dim : Z) : result Tensor :=
  '(shape_h, rand_h) <- astype rand_h ;;
  '(shape_s, rand_s) <- astype rand_s ;;
  if negb ((length shape_h =? 1) && (length shape_s =? 1)
           && (hd 0 shape_h =? hd 0 shape_s))
  then Raise AssertionError
  else if negb (forallb (fun h => (0 <=? h)%Z) rand_h
                && forallb (fun h => (h <? output_dim)%Z) rand_h)
  then Raise AssertionError
  else
    let input_dim := hd 0 shape_h in
    let indices := combine (seq 0 input_dim) (map Z.to_nat rand_h) in
    if (output_dim <? 0)%Z then Raise RuntimeError
    else Ok (to_dense indices rand_s input_dim (Z.to_nat output_dim)).

(** ** The layer *)

Record CompactBilinearPooling : Type := mkCBP {
  input_dim1 : Z;
  input_dim2 : Z;
  output_dim : Z;
  sum_pool : bool;
  sparse_sketch_matrix1 : Tensor;
  sparse_sketch_matrix2 : Tensor
}.

(** [torch.randint(high, size=(n,))]: a 1-D torch tensor of [n] draws in
    [[0, high)]. *)
Definition randint (high n : Z) : M (array Z) :=
  fun g =>
    if (high <=? 0)%Z || (n <? 0)%Z then (Raise RuntimeError, g)
    else (Ok (TorchTensor [Z.to_nat n]
                (map (fun i => (mt_stream (seed g) (offset g + i) mod high)%Z)
                     (seq 0 (Z.to_nat n)))),
          mkGenerator (seed g) (offset g + Z.to_nat n)).

Definition __init__ (input_dim1 input_dim2 output_dim : Z) (sum_pool : bool)
    (rand_h_1 : option (array Z)) (rand_s_1 : option (array R))
    (rand_h_2 : option (array Z)) (rand_s_2 : option (array R))
    : M CompactBilinearPooling :=
  (rand_h_1 <~ match rand_h_1 with
               | None => _ <~ manual_seed 1 ;; randint output_dim input_dim1
               | Some h => retM h
               end ;;
   rand_s_1 <~ match rand_s_1 with
               | None => _ <~ manual_seed 3 ;;
                         b <~ randint 2 input_dim1 ;;
                         retM (array_map (fun x => R_of_Z (2 * x - 1)) b)
               | Some s => retM s
               end ;;
   sketch1 <~ lift (generate_sketch_matrix rand_h_1 rand_s_1 output_dim) ;;
   rand_h_2 <~ match rand_h_2 with
               | None => _ <~ manual_seed 5 ;; randint output_dim input_dim2
               | Some h => retM h
               end ;;
   rand_s_2 <~ match rand_s_2 with
               | None => _ <~ manual_seed 7 ;;
                         b <~ randint 2 input_dim2 ;;
                         retM (array_map (fun x => R_of_Z (2 * x - 1)) b)
               | Some s => retM s
               end ;;
   sketch2 <~ lift (generate_sketch_matrix rand_h_2 rand_s_2 output_dim) ;;
   retM (mkCBP input_dim1 input_dim2 output_dim sum_pool sketch1 sketch2))%M.

Definition forward (self : CompactBilinearPooling) (bottom1 bottom2 : Tensor)
    : result Tensor :=
  c1 <- size_at bottom1 1 ;;
  _ <- (if (Z.of_nat c1 =? input_dim1 self)%Z
        then c2 <- size_at bottom2 1 ;;
             if (Z.of_nat c2 =? input_dim2 self)%Z then Ok tt
             else Raise AssertionError
        else Raise AssertionError) ;;
  '(batch_size, _, height, width) <- unpack4 (size bottom1) ;;
  p1 <- permute_0231 bottom1 ;;
  bottom1_flat <- view_rows p1 (input_dim1 self) ;;
  p2 <- permute_0231 bottom2 ;;
  bottom2_flat <- view_rows p2 (input_dim2 self) ;;
  sketch_1 <- mm bottom1_flat (sparse_sketch_matrix1 self) ;;
  sketch_2 <- mm bottom2_flat (sparse_sketch_matrix2 self) ;;
  '(fft1_real, fft1_imag) <- Fft sketch_1 (zeros (size sketch_1)) ;;
  '(fft2_real, fft2_imag) <- Fft sketch_2 (zeros (size sketch_2)) ;;
  temp_rr <- mul fft1_real fft2_real ;;
  temp_ii <- mul fft1_imag fft2_imag ;;
  fft_product_real <- sub temp_rr temp_ii ;;
  fft_product_imag <- add temp_rr temp_ii ;;
  '(cbp_flat, _) <- Ifft fft_product_real fft_product_imag ;;
  cbp <- view4 cbp_flat batch_size height width (output_dim self) ;;
  if sum_pool self
  then s <- sum_dim1 cbp ;; sum_dim1 s
  else Ok cbp.

(** ** Closed forms of the entries computed by [forward]

    These follow the data flow of [forward] for one spatial location; the
    theory below proves that [forward] computes them. *)

(** Entry [c] of row [n] of [bottom.permute(0, 2, 3, 1).view(-1, C)]. *)
Definition channel_vector (x : Tensor) (C H W n c : nat) : R :=
  at4 x C H W (n / (W * H)) c ((n / W) mod H) (n mod W).

(** Entry [j] of the count sketch [v.mm(sketch)] of a channel vector. *)
Definition sketch_entry (sk : Tensor) (C D : nat) (v : nat -> R) (j : nat) : R :=
  rsum C (fun c => (v c * at2 sk D c j)%R).

(** The transform of a real signal: the imaginary input is all zeros. *)
Definition dft_re (D : nat) (s : nat -> R) (k : nat) : R :=
  rsum D (fun j => (s j * cos2pi D (j * k) + 0 * sin2pi D (j * k))%R).

Definition dft_im (D : nat) (s : nat -> R) (k : nat) : R :=
  rsum D (fun j => (0 * cos2pi D (j * k) - s j * sin2pi D (j * k))%R).

(** [fft_product_real] and [fft_product_imag] at frequency [k]. *)
Definition product_re (D : nat) (s1 s2 : nat -> R) (k : nat) : R :=
  (dft_re D s1 k * dft_re D s2 k - dft_im D s1 k * dft_im D s2 k)%R.

Definition product_im (D : nat) (s1 s2 : nat -> R) (k : nat) : R :=
  (dft_re D s1 k * dft_re D s2 k + dft_im D s1 k * dft_im D s2 k)%R.

(** Entry [j] of [cbp_flat] for the sketches [s1] and [s2] of one row. *)
Definition idft_product (D : nat) (s1 s2 : nat -> R) (j : nat) : R :=
  (inv_n D *
   rsum D (fun k =>
     (product_re D s1 s2 k * cos2pi D (k * j)
      - product_im D s1 s2 k * sin2pi D (k * j))%R))%R.

Definition cbp_entry (self : CompactBilinearPooling) (C1 C2 D : nat)
    (v1 v2 : nat -> R) (j : nat) : R :=
  idft_product D
    (sketch_entry (sparse_sketch_matrix1 self) C1 D v1)
    (sketch_entry (sparse_sketch_matrix2 self) C2 D v2) j.

(** The unpooled output as one [B*H*W] by [D] table. *)
Definition cbp_table (self : CompactBilinearPooling) (C1 C2 D H W : nat)
    (bottom1 bottom2 : Tensor) (n j : nat) : R :=
  cbp_entry self C1 C2 D
    (channel_vector bottom1 C1 H W n) (channel_vector bottom2 C2 H W n) j.

(** ** Validity of instances and inputs *)

(** An instance whose sketch matrices have the sizes of its dimensions. *)
Definition valid_instance (self : CompactBilinearPooling) (C1 C2 D : nat)
    : Prop :=
  input_dim1 self = Z.of_nat C1 /\ input_dim2 self = Z.of_nat C2 /\
  output_dim self = Z.of_nat D /\
  0 < C1 /\ 0 < C2 /\
  size (sparse_sketch_matrix1 self) = [C1; D] /\
  size (sparse_sketch_matrix2 self) = [C2; D].

Definition with_sum_pool (b : bool) (self : CompactBilinearPooling)
    : CompactBilinearPooling :=
  mkCBP (input_dim1 self) (input_dim2 self) (output_dim self) b
        (sparse_sketch_matrix1 self) (sparse_sketch_matrix2 self).

(** The tensor [c * x + y] for tensors of one size. *)
Definition tlin (c : R) (x y : Tensor) : Tensor :=
  mkTensor (size x)
    (tab (numel (size x))
         (fun i => (c * get (storage x) i + get (storage y) i)%R)).

(** A supplied pair that the assertions of [generate_sketch_matrix]
    reject: the lengths differ or an index is outside [[0, output_dim)]. *)
Definition rejected_spec (rand_h : list Z) (rand_s : list R) (output_dim : Z)
    : Prop :=
  length rand_h <> length rand_s \/
  exists h, In h rand_h /\ ~ (0 <= h < output_dim)%Z.

(** The assertions of lines 120 and 121 fail on two numpy arrays: one is
    not 1-dimensional, the lengths differ, or an index is outside
    [[0, output_dim)]. *)
Definition assertion_fails (rand_h : array Z) (rand_s : array R)
    (output_dim : Z) : Prop :=
  exists shape_h h shape_s s,
    rand_h = NdArray shape_h h /\ rand_s = NdArray shape_s s /\
    (length shape_h <> 1 \/ length shape_s <> 1 \/
     hd 0 shape_h <> hd 0 shape_s \/
     exists x, In x h /\ ~ (0 <= x < output_dim)%Z).

(** The instance with the roles of the two input streams exchanged. *)
Definition swap_streams (self : CompactBilinearPooling)
    : CompactBilinearPooling :=
  mkCBP (input_dim2 self) (input_dim1 self) (output_dim self) (sum_pool self)
        (sparse_sketch_matrix2 self) (sparse_sketch_matrix1 self).

(** ** Definitions following the specification *)

(** Circular convolution of two signals of length [d]:
    [z_n = sum_j x_j * y_((n - j) mod d)]. *)
Definition circular_convolution (d : nat) (x y : list R) : list R :=
  tab d (fun n => rsum d (fun j => (get x j * get y ((n + d - j) mod d))%R)).

(** Complex multiplication as the specification writes it. *)
Definition complex_mul_spec (r1 i1 r2 i2 : R) : R * R :=
  ((r1 * r2 - i1 * i2)%R, (r1 * i2 + i1 * r2)%R).

(** Steps 3 to 5 of the specification for one row: transform both
    sketches, multiply with [complex_mul_spec], transform back and keep the
    real part. *)
Definition idft_product_spec (D : nat) (s1 s2 : nat -> R) (j : nat) : R :=
  (inv_n D *
   rsum D (fun k =>
     let p := complex_mul_spec (dft_re D s1 k) (dft_im D s1 k)
                               (dft_re D s2 k) (dft_im D s2 k) in
     (fst p * cos2pi D (k * j) - snd p * sin2pi D (k * j))%R))%R.

End Layer.

End Cbp.

Import Cbp.

(** ** A concrete scalar structure: the rationals

    Used to run the layer on concrete inputs.  The transform has rational
    coefficients exactly for the lengths 1, 2 and 4, which is all the
    instance provides. *)
Module Rational.

Definition cos2pi (d m : nat) : Qc :=
  match d with
  | 1 => 1%Qc
  | 2 => if Nat.even m then 1%Qc else (- (1))%Qc
  | 4 => match m mod 4 with
         | 0 => 1%Qc
         | 2 => (- (1))%Qc
         | _ => 0%Qc
         end
  | _ => 0%Qc
  end.

Definition sin2pi (d m : nat) : Qc :=
  match d with
  | 4 => match m mod 4 with
         | 1 => 1%Qc
         | 3 => (- (1))%Qc
         | _ => 0%Qc
         end
  | _ => 0%Qc
  end.

Definition inv_n (d : nat) : Qc := (/ Q2Qc (inject_Z (Z.of_nat d)))%Qc.

(** A linear congruential stream standing for the generator's output. *)
Definition mt_stream (s : Z) (k : nat) : Z :=
  ((s * 1103515245 + Z.of_nat k * 12345 + 6789) mod 2147483648)%Z.

Definition T (s : list nat) (l : list Qc) : Tensor Qc := mkTensor s l.

Definition generate_sketch_matrix :=
  @generate_sketch_matrix Qc 0%Qc Qcplus.

Definition init :=
  @__init__ Qc 0%Qc 1%Qc Qcplus Qcopp mt_stream.

Definition forward :=
  @forward Qc 0%Qc Qcplus Qcmult Qcminus cos2pi sin2pi inv_n.

Definition mm := @mm Qc 0%Qc Qcplus Qcmult.

Definition circular_convolution :=
  @circular_convolution Qc 0%Qc Qcplus Qcmult.

Definition idft_product_spec :=
  @idft_product_spec Qc 0%Qc Qcplus Qcmult Qcminus cos2pi sin2pi inv_n.

Definition q (z : Z) : Qc := Q2Qc (inject_Z z).

(** The numerators and denominators of a tensor's entries. *)
Definition entries (t : Tensor Qc) : list Q := map this (storage t).

(** What a caller sees of a result: the size and the entries, or the
    exception. *)
Definition observe (r : result (Tensor Qc)) : result (list nat * list Q) :=
  match r with
  | Ok t => Ok (size t, entries t)
  | Raise e => Raise e
  end.

Definition g0 : generator := mkGenerator 42 10.

(** The instance a construction returned. *)
Definition constructed (r : result (CompactBilinearPooling Qc) * generator)
    : CompactBilinearPooling Qc :=
  match fst r with
  | Ok self => self
  | Raise _ => mkCBP 0 0 0 false (T [] []) (T [] [])
  end.

(** [CompactBilinearPooling(1, 1, 4, sum_pool, rand_h_1=np.array([1]),
    rand_s_1=np.array([1]), rand_h_2=np.array([0]), rand_s_2=np.array([1]))] *)
Definition layer4 (pool : bool) : CompactBilinearPooling Qc :=
  constructed
    (init 1 1 4 pool (Some (array1d [1%Z])) (Some (array1d [q 1]))
          (Some (array1d [0%Z])) (Some (array1d [q 1])) g0).

(** [CompactBilinearPooling(2, 3, 4, sum_pool, rand_h_1=np.array([1, 3]),
    rand_s_1=np.array([1, -1]), rand_h_2=np.array([0, 2, 2]),
    rand_s_2=np.array([-1, 1, 1]))] *)
Definition layer23 (pool : bool) : CompactBilinearPooling Qc :=
  constructed
    (init 2 3 4 pool
       (Some (array1d [1%Z; 3%Z])) (Some (array1d [q 1; q (-1)]))
       (Some (array1d [0%Z; 2%Z; 2%Z])) (Some (array1d [q (-1); q 1; q 1]))
       g0).

(** [CompactBilinearPooling(1, 1, 2, False, rand_h_1=np.array([1]),
    rand_s_1=np.array([1]), rand_h_2=np.array([0]),
    rand_s_2=np.array([-1]))] *)
Definition layer2 : CompactBilinearPooling Qc :=
  constructed
    (init 1 1 2 false (Some (array1d [1%Z])) (Some (array1d [q 1]))
          (Some (array1d [0%Z])) (Some (array1d [q (-1)])) g0).

(** Inputs of sizes [1; 2; 2; 2] and [1; 3; 2; 2]. *)
Definition x223 : Tensor Qc :=
  T [1; 2; 2; 2] (map q [1; 2; 3; 4; 5; 6; 7; 8]%Z).

Definition y223 : Tensor Qc :=
  T [1; 2; 2; 2] (map q [0; -1; 3; 2; 9; 4; 7; -5]%Z).

Definition z223 : Tensor Qc :=
  T [1; 3; 2; 2] (map q [1; 0; -1; 2; 3; 1; 0; 4; -2; 5; 1; 1]%Z).

Definition t223 : Tensor Qc :=
  T [1; 3; 2; 2] (map q [2; 2; -1; 0; 1; 1; 0; 3; 7; -4; 1; 6]%Z).

End Rational.

(** * Theory *)

Unset Implicit Arguments.

Section Theory.

Variable R : Type.
Variables (rO rI : R) (radd rmul rsub : R -> R -> R) (ropp : R -> R).
Variables (cos2pi sin2pi : nat -> nat -> R) (inv_n : nat -> R).
Variable mt_stream : Z -> nat -> Z.

Hypothesis Rth : ring_theory rO rI radd rmul rsub ropp (@eq R).
Add Ring Rring' : Rth.

Notation "0" := rO : R_scope.
Notation "1" := rI : R_scope.
Infix "+" := radd : R_scope.
Infix "*" := rmul : R_scope.
Infix "-" := rsub : R_scope.
Notation "- x" := (ropp x) : R_scope.

Local Abbreviation get := (get rO).
Local Abbreviation at2 := (at2 rO).
Local Abbreviation at4 := (at4 rO).
Local Abbreviation rsum := (rsum rO radd).
Local Abbreviation rsum_list := (rsum_list rO radd).
Local Abbreviation zeros := (zeros rO).
Local Abbreviation permute_0231 := (permute_0231 rO).
Local Abbreviation mm := (mm rO radd rmul).
Local Abbreviation pointwise := (pointwise rO).
Local Abbreviation mul := (mul rO rmul).
Local Abbreviation sub := (sub rO rsub).
Local Abbreviation add := (add rO radd).
Local Abbreviation Fft := (Fft rO radd rmul rsub cos2pi sin2pi).
Local Abbreviation Ifft := (Ifft rO radd rmul rsub cos2pi sin2pi inv_n).
Local Abbreviation sum_dim1 := (sum_dim1 rO radd).
Local Abbreviation to_dense := (to_dense rO radd).
Local Abbreviation generate_sketch_matrix := (generate_sketch_matrix rO radd).
Local Abbreviation R_of_Z := (R_of_Z rO rI radd ropp).
Local Abbreviation __init__ := (__init__ rO rI radd ropp mt_stream).
Local Abbreviation forward :=
  (forward rO radd rmul rsub cos2pi sin2pi inv_n).
Local Abbreviation channel_vector := (channel_vector rO).
Local Abbreviation sketch_entry := (sketch_entry rO radd rmul).
Local Abbreviation dft_re := (dft_re rO radd rmul cos2pi sin2pi).
Local Abbreviation dft_im := (dft_im rO radd rmul rsub cos2pi sin2pi).
Local Abbreviation product_re := (product_re rO radd rmul rsub cos2pi sin2pi).
Local Abbreviation product_im := (product_im rO radd rmul rsub cos2pi sin2pi).
Local Abbreviation idft_product :=
  (idft_product rO radd rmul rsub cos2pi sin2pi inv_n).
Local Abbreviation cbp_entry :=
  (cbp_entry rO radd rmul rsub cos2pi sin2pi inv_n).
Local Abbreviation cbp_table :=
  (cbp_table rO radd rmul rsub cos2pi sin2pi inv_n).
Local Abbreviation tlin := (tlin rO radd rmul).
Local Abbreviation circular_convolution :=
  (circular_convolution rO radd rmul).

(** ** Tabulation and sums *)

Lemma length_tab (n : nat) (f : nat -> R) : length (tab n f) = n.
Proof. unfold tab. now rewrite length_map, length_seq. Qed.

Lemma get_tab (n : nat) (f : nat -> R) (i : nat) :
  i < n -> get (tab n f) i = f i.
Proof.
  intros Hi. unfold get, tab.
  rewrite (nth_indep _ rO (f 0)) by now rewrite length_map, length_seq.
  rewrite map_nth, seq_nth; auto.
Qed.

Lemma tab_ext (n : nat) (f g : nat -> R) :
  (forall i, i < n -> f i = g i) -> tab n f = tab n g.
Proof.
  intros H. unfold tab. apply map_ext_in.
  intros i Hi. apply in_seq in Hi. apply H. lia.
Qed.

Lemma row_major (i j m : nat) :
  j < m -> (i * m + j) / m = i /\ (i * m + j) mod m = j.
Proof.
  intros Hj. split.
  - symmetry. apply (Nat.div_unique _ _ _ j); lia.
  - symmetry. apply (Nat.mod_unique _ _ i); lia.
Qed.

Lemma row_major_lt (i j n m : nat) : i < n -> j < m -> i * m + j < n * m.
Proof. intros. nia. Qed.

Lemma get_tab2 (n m : nat) (f : nat -> nat -> R) (i j : nat) :
  i < n -> j < m -> get (tab2 n m f) (i * m + j) = f i j.
Proof.
  intros Hi Hj. unfold tab2.
  rewrite get_tab by now apply row_major_lt.
  destruct (row_major i j m Hj) as [-> ->]. reflexivity.
Qed.

Lemma tab2_ext (n m : nat) (f g : nat -> nat -> R) :
  (forall i j, i < n -> j < m -> f i j = g i j) -> tab2 n m f = tab2 n m g.
Proof.
  intros H. unfold tab2. apply tab_ext. intros idx Hidx.
  assert (Hm : m <> 0) by (intros ->; lia).
  apply H.
  - apply Nat.Div0.div_lt_upper_bound. lia.
  - now apply Nat.mod_upper_bound.
Qed.

Lemma rsum_seq_ext (a n : nat) (f g : nat -> R) :
  (forall i, a <= i < a + n -> f i = g i) ->
  fold_right (fun i acc => (f i + acc)%R) 0%R (seq a n) =
  fold_right (fun i acc => (g i + acc)%R) 0%R (seq a n).
Proof.
  revert a. induction n as [|n IH]; intros a H; simpl; [reflexivity|].
  rewrite H by lia. f_equal. apply IH. intros i Hi. apply H. lia.
Qed.

Lemma rsum_ext (n : nat) (f g : nat -> R) :
  (forall i, i < n -> f i = g i) -> rsum n f = rsum n g.
Proof. intros H. apply rsum_seq_ext. intros i Hi. apply H. lia. Qed.

(** ** The operations on valid sizes *)

Lemma bidx_lt (n i : nat) : i < n -> bidx n i = i.
Proof.
  intros Hi. unfold bidx. destruct (Nat.eqb_spec n 1); [lia | reflexivity].
Qed.

Lemma broadcast_dim_same (n : nat) : broadcast_dim n n = Ok n.
Proof. unfold broadcast_dim. now rewrite Nat.eqb_refl. Qed.

Lemma shape_eqb_refl (s : list nat) : shape_eqb s s = true.
Proof. induction s; simpl; [reflexivity | now rewrite Nat.eqb_refl]. Qed.

Lemma view_rows_ok (p : Tensor R) (B H W C : nat) :
  size p = [B; H; W; C] -> 0 < C ->
  view_rows p (Z.of_nat C) = Ok (mkTensor [B * H * W; C] (storage p)).
Proof.
  intros Hs HC. unfold view_rows. rewrite Hs.
  destruct (Z.leb_spec (Z.of_nat C) 0); [lia|].
  rewrite Nat2Z.id.
  replace (numel [B; H; W; C]) with (B * H * W * C) by (simpl; lia).
  rewrite Nat.Div0.mod_mul, Nat.div_mul by lia. reflexivity.
Qed.

Lemma mm_ok (a b : Tensor R) (n k m : nat) :
  size a = [n; k] -> size b = [k; m] ->
  mm a b =
  Ok (mkTensor [n; m]
        (tab2 n m (fun i j => rsum k (fun l => (at2 a k i l * at2 b m l j)%R)))).
Proof.
  intros Ha Hb. unfold Cbp.mm. rewrite Ha, Hb, Nat.eqb_refl. reflexivity.
Qed.

Lemma pointwise_ok (f : R -> R -> R) (a b : Tensor R) (n d : nat) :
  size a = [n; d] -> size b = [n; d] ->
  pointwise f a b =
  Ok (mkTensor [n; d] (tab2 n d (fun i j => f (at2 a d i j) (at2 b d i j)))).
Proof.
  intros Ha Hb. unfold Cbp.pointwise.
  rewrite Ha, Hb, !broadcast_dim_same. simpl.
  do 2 f_equal. apply tab2_ext. intros i j Hi Hj.
  now rewrite !bidx_lt.
Qed.

Lemma view4_ok (t : Tensor R) (B H W D : nat) :
  size t = [B * H * W; D] ->
  view4 t B H W (Z.of_nat D) = Ok (mkTensor [B; H; W; D] (storage t)).
Proof.
  intros Hs. unfold view4. rewrite Hs.
  destruct (Z.eqb_spec (Z.of_nat D) (-1)); [lia|].
  destruct (Z.ltb_spec (Z.of_nat D) 0); [lia|].
  rewrite Nat2Z.id.
  replace (numel [B * H * W; D]) with (B * H * W * D) by (simpl; lia).
  now rewrite Nat.eqb_refl.
Qed.

Lemma at2_zeros (s : list nat) (m i j : nat) : at2 (zeros s) m i j = 0%R.
Proof.
  unfold Cbp.at2, Cbp.zeros; simpl.
  destruct (Nat.lt_ge_cases (i * m + j) (numel s)).
  - now rewrite get_tab.
  - unfold Cbp.get. apply nth_overflow. now rewrite length_tab.
Qed.

(** Row [n] of the flattened input is the channel vector at location [n]. *)
Lemma at2_permute (x : Tensor R) (B C H W n c : nat) :
  n < B * H * W -> c < C ->
  get (tab (B * H * W * C) (fun idx =>
         at4 x C H W (idx / (C * W * H)) (idx mod C)
             ((idx / (C * W)) mod H) ((idx / C) mod W))) (n * C + c)
  = channel_vector x C H W n c.
Proof.
  intros Hn Hc.
  rewrite get_tab by now apply row_major_lt.
  unfold Cbp.channel_vector.
  destruct (row_major n c C Hc) as [Hd Hm].
  rewrite Hm, <- !Nat.Div0.div_div, Hd. reflexivity.
Qed.

Lemma at2_mk_tab2 (s : list nat) (n m : nat) (f : nat -> nat -> R) (i j : nat) :
  i < n -> j < m -> at2 (mkTensor s (tab2 n m f)) m i j = f i j.
Proof. intros. unfold Cbp.at2. cbn [storage]. now apply get_tab2. Qed.

(** The count sketch of row [n] of a flattened input. *)
Lemma sketch_at (x sk : Tensor R) (B C H W D n j : nat) :
  n < B * H * W -> j < D ->
  at2 (mkTensor [B * H * W; D]
         (tab2 (B * H * W) D (fun i j1 =>
            rsum C (fun l =>
              rmul
                (at2 (mkTensor [B * H * W; C]
                        (tab (B * H * W * C) (fun idx =>
                           at4 x C H W (idx / (C * W * H)) (idx mod C)
                               ((idx / (C * W)) mod H) ((idx / C) mod W))))
                     C i l)
                (at2 sk D l j1))))) D n j
  = sketch_entry sk C D (channel_vector x C H W n) j.
Proof.
  intros Hn Hj. rewrite at2_mk_tab2 by assumption.
  unfold Cbp.sketch_entry. apply rsum_ext. intros l Hl. f_equal.
  unfold Cbp.at2 at 1. cbn [storage]. now apply at2_permute.
Qed.

Lemma fft_re_row (s : Tensor R) (N D n k : nat) (e : nat -> R) :
  (forall j, j < D -> at2 s D n j = e j) ->
  rsum D (fun j =>
    (at2 s D n j * cos2pi D (j * k)
     + at2 (zeros [N; D]) D n j * sin2pi D (j * k))%R)
  = dft_re D e k.
Proof.
  intros He. unfold Cbp.dft_re. apply rsum_ext. intros j Hj.
  now rewrite He, at2_zeros.
Qed.

Lemma fft_im_row (s : Tensor R) (N D n k : nat) (e : nat -> R) :
  (forall j, j < D -> at2 s D n j = e j) ->
  rsum D (fun j =>
    (at2 (zeros [N; D]) D n j * cos2pi D (j * k)
     - at2 s D n j * sin2pi D (j * k))%R)
  = dft_im D e k.
Proof.
  intros He. unfold Cbp.dft_im. apply rsum_ext. intros j Hj.
  now rewrite He, at2_zeros.
Qed.

(** ** What [forward] computes on valid inputs *)

Lemma forward_valid (self : CompactBilinearPooling R) (C1 C2 D B H W : nat)
    (bottom1 bottom2 : Tensor R) :
  valid_instance self C1 C2 D ->
  size bottom1 = [B; C1; H; W] -> size bottom2 = [B; C2; H; W] ->
  forward self bottom1 bottom2 =
  let cbp := mkTensor [B; H; W; D]
               (tab2 (B * H * W) D (cbp_table self C1 C2 D H W bottom1 bottom2)) in
  if sum_pool self then s <- sum_dim1 cbp ;; sum_dim1 s else Ok cbp.
Proof.
  intros (Hd1 & Hd2 & Hd & HC1 & HC2 & Hs1 & Hs2) Hb1 Hb2.
  unfold Cbp.forward, size_at. rewrite Hb1, Hb2. simpl nth_error. cbn iota.
  simpl bind at 1.
  rewrite Hd1, Hd2, Hd, !Z.eqb_refl. simpl bind at 1. simpl bind at 1.
  unfold Cbp.permute_0231. rewrite Hb1, Hb2.
  cbn [bind].
  rewrite !(@view_rows_ok _ B H W) by (reflexivity || assumption).
  cbn [bind].
  rewrite (@mm_ok _ _ (B * H * W) C1 D) by (reflexivity || assumption).
  cbn [bind].
  rewrite (@mm_ok _ _ (B * H * W) C2 D) by (reflexivity || assumption).
  cbn [bind].
  unfold Cbp.Fft. cbn [size]. rewrite !shape_eqb_refl. cbn [bind].
  unfold Cbp.mul, Cbp.sub, Cbp.add.
  rewrite !(@pointwise_ok _ _ _ (B * H * W) D) by reflexivity. cbn [bind].
  rewrite !(@pointwise_ok _ _ _ (B * H * W) D) by reflexivity. cbn [bind].
  unfold Cbp.Ifft. cbn [size]. rewrite !shape_eqb_refl. cbn [bind].
  rewrite view4_ok by reflexivity. cbn [bind storage].
  match goal with
  | |- (if _ then bind (sum_dim1 (mkTensor _ ?T1)) _ else _) =
       (if _ then bind (sum_dim1 (mkTensor _ ?T2)) _ else _) =>
      assert (E : T1 = T2); [| now rewrite E]
  end.
  apply tab2_ext. intros n j Hn Hj.
  unfold Cbp.cbp_table, Cbp.cbp_entry, Cbp.idft_product.
  f_equal. apply rsum_ext. intros k Hk.
  rewrite !at2_mk_tab2 by assumption.
  unfold Cbp.product_re, Cbp.product_im.
  rewrite (@fft_re_row _ (B * H * W) D n k _
             (fun j0 Hj0 => @sketch_at bottom1 (sparse_sketch_matrix1 self)
                              B C1 H W D n j0 Hn Hj0)).
  rewrite (@fft_re_row _ (B * H * W) D n k _
             (fun j0 Hj0 => @sketch_at bottom2 (sparse_sketch_matrix2 self)
                              B C2 H W D n j0 Hn Hj0)).
  rewrite (@fft_im_row _ (B * H * W) D n k _
             (fun j0 Hj0 => @sketch_at bottom1 (sparse_sketch_matrix1 self)
                              B C1 H W D n j0 Hn Hj0)).
  rewrite (@fft_im_row _ (B * H * W) D n k _
             (fun j0 Hj0 => @sketch_at bottom2 (sparse_sketch_matrix2 self)
                              B C2 H W D n j0 Hn Hj0)).
  reflexivity.
Qed.

Lemma forward_unpooled (self : CompactBilinearPooling R) (C1 C2 D B H W : nat)
    (bottom1 bottom2 : Tensor R) :
  valid_instance self C1 C2 D -> sum_pool self = false ->
  size bottom1 = [B; C1; H; W] -> size bottom2 = [B; C2; H; W] ->
  forward self bottom1 bottom2 =
  Ok (mkTensor [B; H; W; D]
        (tab2 (B * H * W) D (cbp_table self C1 C2 D H W bottom1 bottom2))).
Proof.
  intros Hv Hp Hb1 Hb2. rewrite (@forward_valid _ C1 C2 D B H W _ _ Hv Hb1 Hb2). cbv zeta.
  now rewrite Hp.
Qed.

Lemma location_lt (B H W b h w : nat) :
  b < B -> h < H -> w < W -> (b * H + h) * W + w < B * H * W.
Proof. intros Hb Hh Hw. auto using row_major_lt. Qed.

(** Entry [(b, h, w, d)] of a [B; H; W; D] table stored by rows. *)
Lemma at4_table (s : list nat) (B H W D : nat) (f : nat -> nat -> R)
    (b h w d : nat) :
  b < B -> h < H -> w < W -> d < D ->
  at4 (mkTensor s (tab2 (B * H * W) D f)) H W D b h w d
  = f ((b * H + h) * W + w) d.
Proof.
  intros Hb Hh Hw Hd. unfold Cbp.at4. cbn [storage].
  apply get_tab2; [now apply location_lt | assumption].
Qed.

(** The row of the flattened input at location [(b, h, w)] is the channel
    vector of the input there. *)
Lemma channel_vector_at (x : Tensor R) (C H W b h w c : nat) :
  h < H -> w < W ->
  channel_vector x C H W ((b * H + h) * W + w) c = at4 x C H W b c h w.
Proof.
  intros Hh Hw. unfold Cbp.channel_vector.
  destruct (row_major (b * H + h) w W Hw) as [Hq Hr].
  destruct (row_major b h H Hh) as [Hq' Hr'].
  rewrite Hr, <- Nat.Div0.div_div, Hq, Hr', Hq'. reflexivity.
Qed.

Lemma forward_pooled (self : CompactBilinearPooling R) (C1 C2 D B H W : nat)
    (bottom1 bottom2 : Tensor R) :
  valid_instance self C1 C2 D -> sum_pool self = true ->
  size bottom1 = [B; C1; H; W] -> size bottom2 = [B; C2; H; W] ->
  forward self bottom1 bottom2 =
  Ok (mkTensor [B; D]
        (tab2 B D (fun b d =>
           rsum W (fun w =>
             rsum H (fun h =>
               cbp_table self C1 C2 D H W bottom1 bottom2
                         ((b * H + h) * W + w) d))))).
Proof.
  intros Hv Hp Hb1 Hb2. rewrite (@forward_valid _ C1 C2 D B H W _ _ Hv Hb1 Hb2). cbv zeta.
  rewrite Hp. unfold Cbp.sum_dim1. cbn [size bind storage numel fold_right].
  rewrite !Nat.mul_1_r. do 2 f_equal.
  apply tab2_ext. intros b d Hb Hd.
  apply rsum_ext. intros w Hw.
  replace ((b * W + w) * D + d) with (b * (W * D) + (w * D + d)) by lia.
  rewrite get_tab2 by (assumption || now apply row_major_lt).
  apply rsum_ext. intros h Hh.
  replace ((b * H + h) * (W * D) + (w * D + d))
    with (((b * H + h) * W + w) * D + d) by lia.
  apply get_tab2; [now apply location_lt | assumption].
Qed.

(** ** Output shape *)

(** C4: for an instance with sketch matrices of its dimensions and inputs of
    sizes [B; C1; H; W] and [B; C2; H; W], [forward] returns a tensor, of
    size [B; D] when [sum_pool] is set and [B; H; W; D] otherwise, whose
    storage has exactly that many entries. *)
Theorem C4_forward_output_shape
    (self : CompactBilinearPooling R) (C1 C2 D B H W : nat)
    (bottom1 bottom2 : Tensor R) :
  valid_instance self C1 C2 D ->
  size bottom1 = [B; C1; H; W] -> size bottom2 = [B; C2; H; W] ->
  exists out,
    forward self bottom1 bottom2 = Ok out /\
    size out = (if sum_pool self then [B; D] else [B; H; W; D]) /\
    tensor_wf out.
Proof.
  intros Hv Hb1 Hb2. destruct (sum_pool self) eqn:Hp.
  - eexists. split; [apply (@forward_pooled _ C1 C2 D B H W _ _ Hv Hp Hb1 Hb2)|].
    split; [reflexivity|].
    unfold tensor_wf, tab2. cbn [size storage numel fold_right].
    rewrite length_tab. lia.
  - eexists. split; [apply (@forward_unpooled _ C1 C2 D B H W _ _ Hv Hp Hb1 Hb2)|].
    split; [reflexivity|].
    unfold tensor_wf, tab2. cbn [size storage numel fold_right].
    rewrite length_tab. lia.
Qed.

(** ** Pooling *)

Lemma valid_with_sum_pool (b : bool) (self : CompactBilinearPooling R)
    (C1 C2 D : nat) :
  valid_instance self C1 C2 D -> valid_instance (with_sum_pool b self) C1 C2 D.
Proof. intros H. exact H. Qed.

(** C5: on the same inputs and with the same sketch matrices, the output
    with [sum_pool] set is the sum over the height and width axes of the
    output with [sum_pool] unset:
    [pooled[b, d] = sum_w sum_h unpooled[b, h, w, d]]. *)
Theorem C5_pooled_is_sum_of_unpooled
    (self : CompactBilinearPooling R) (C1 C2 D B H W : nat)
    (bottom1 bottom2 : Tensor R) :
  valid_instance self C1 C2 D ->
  size bottom1 = [B; C1; H; W] -> size bottom2 = [B; C2; H; W] ->
  exists pooled unpooled,
    forward (with_sum_pool true self) bottom1 bottom2 = Ok pooled /\
    forward (with_sum_pool false self) bottom1 bottom2 = Ok unpooled /\
    size pooled = [B; D] /\ size unpooled = [B; H; W; D] /\
    forall b d, b < B -> d < D ->
      at2 pooled D b d =
      rsum W (fun w => rsum H (fun h => at4 unpooled H W D b h w d)).
Proof.
  intros Hv Hb1 Hb2.
  do 2 eexists.
  split; [apply (@forward_pooled (with_sum_pool true self) C1 C2 D B H W);
          auto using valid_with_sum_pool|].
  split; [apply (@forward_unpooled (with_sum_pool false self) C1 C2 D B H W);
          auto using valid_with_sum_pool|].
  split; [reflexivity|]. split; [reflexivity|].
  intros b d Hb Hd. rewrite at2_mk_tab2 by assumption.
  apply rsum_ext. intros w Hw. apply rsum_ext. intros h Hh.
  now rewrite at4_table.
Qed.

(** ** Locality *)

Lemma sketch_entry_ext (sk : Tensor R) (C D : nat) (v v' : nat -> R) (j : nat) :
  (forall c, c < C -> v c = v' c) ->
  sketch_entry sk C D v j = sketch_entry sk C D v' j.
Proof.
  intros E. apply rsum_ext. intros c Hc. now rewrite E.
Qed.

Lemma dft_re_ext (D : nat) (s s' : nat -> R) (k : nat) :
  (forall j, j < D -> s j = s' j) -> dft_re D s k = dft_re D s' k.
Proof.
  intros E. apply rsum_ext. intros j Hj. now rewrite E.
Qed.

Lemma dft_im_ext (D : nat) (s s' : nat -> R) (k : nat) :
  (forall j, j < D -> s j = s' j) -> dft_im D s k = dft_im D s' k.
Proof.
  intros E. apply rsum_ext. intros j Hj. now rewrite E.
Qed.

Lemma idft_product_ext (D : nat) (s1 s1' s2 s2' : nat -> R) (j : nat) :
  (forall i, i < D -> s1 i = s1' i) ->
  (forall i, i < D -> s2 i = s2' i) ->
  idft_product D s1 s2 j = idft_product D s1' s2' j.
Proof.
  intros E1 E2. unfold Cbp.idft_product. f_equal.
  apply rsum_ext. intros k Hk.
  unfold Cbp.product_re, Cbp.product_im.
  now rewrite (dft_re_ext D s1 s1' k E1), (dft_re_ext D s2 s2' k E2),
    (dft_im_ext D s1 s1' k E1), (dft_im_ext D s2 s2' k E2).
Qed.

(** C8: with [sum_pool] unset, the output at a location [(b, h, w)] is
    determined by the channel vectors of the two inputs at that location:
    two input pairs that agree there give outputs that agree there. *)
Theorem C8_output_depends_on_location_only
    (self : CompactBilinearPooling R) (C1 C2 D B H W : nat)
    (x1 x2 y1 y2 : Tensor R) (b h w : nat) :
  valid_instance self C1 C2 D -> sum_pool self = false ->
  size x1 = [B; C1; H; W] -> size x2 = [B; C2; H; W] ->
  size y1 = [B; C1; H; W] -> size y2 = [B; C2; H; W] ->
  b < B -> h < H -> w < W ->
  (forall c, c < C1 -> at4 x1 C1 H W b c h w = at4 y1 C1 H W b c h w) ->
  (forall c, c < C2 -> at4 x2 C2 H W b c h w = at4 y2 C2 H W b c h w) ->
  exists outx outy,
    forward self x1 x2 = Ok outx /\ forward self y1 y2 = Ok outy /\
    forall d, d < D -> at4 outx H W D b h w d = at4 outy H W D b h w d.
Proof.
  intros Hv Hp Hx1 Hx2 Hy1 Hy2 Hb Hh Hw E1 E2.
  do 2 eexists.
  split; [apply (@forward_unpooled _ C1 C2 D B H W _ _ Hv Hp Hx1 Hx2)|].
  split; [apply (@forward_unpooled _ C1 C2 D B H W _ _ Hv Hp Hy1 Hy2)|].
  intros d Hd. rewrite !at4_table by assumption.
  unfold Cbp.cbp_table, Cbp.cbp_entry.
  apply idft_product_ext; intros j Hj; apply sketch_entry_ext; intros c Hc.
  - now rewrite !channel_vector_at, E1.
  - now rewrite !channel_vector_at, E2.
Qed.

(** ** Bilinearity *)

Lemma rsum_lin (n : nat) (c : R) (f g : nat -> R) :
  rsum n (fun i => (c * f i + g i)%R) = (c * rsum n f + rsum n g)%R.
Proof.
  unfold Cbp.rsum. generalize 0 as a.
  induction n as [|n IH]; intros a; simpl.
  - ring.
  - rewrite IH. ring.
Qed.

Lemma tab2_lin (n m : nat) (c : R) (F Fx Fy : nat -> nat -> R) :
  (forall i j, i < n -> j < m -> F i j = (c * Fx i j + Fy i j)%R) ->
  tab2 n m F =
  tab (n * m)
      (fun i => (c * get (tab2 n m Fx) i + get (tab2 n m Fy) i)%R).
Proof.
  intros E. unfold tab2. apply tab_ext. intros idx Hidx.
  rewrite !get_tab by assumption.
  assert (Hm : m <> 0) by (intros ->; lia).
  apply E.
  - apply Nat.Div0.div_lt_upper_bound. lia.
  - now apply Nat.mod_upper_bound.
Qed.

Lemma channel_vector_lin (c : R) (x y : Tensor R) (B C H W n k : nat) :
  size x = [B; C; H; W] -> n < B * H * W -> k < C ->
  channel_vector (tlin c x y) C H W n k =
  (c * channel_vector x C H W n k + channel_vector y C H W n k)%R.
Proof.
  intros Hx Hn Hk.
  unfold Cbp.channel_vector, Cbp.at4, Cbp.tlin.
  cbn [storage]. rewrite Hx. apply get_tab.
  assert (HW : W <> 0) by (intros ->; lia).
  assert (HH : H <> 0) by (intros ->; lia).
  assert (Hb : n / (W * H) < B)
    by (apply Nat.Div0.div_lt_upper_bound; lia).
  assert (Hh : (n / W) mod H < H) by now apply Nat.mod_upper_bound.
  assert (Hw : n mod W < W) by now apply Nat.mod_upper_bound.
  replace (numel [B; C; H; W]) with (B * C * H * W) by (simpl; lia).
  auto using row_major_lt.
Qed.

Lemma sketch_entry_lin (sk : Tensor R) (C D : nat) (c : R)
    (v v' : nat -> R) (j : nat) :
  sketch_entry sk C D (fun k => (c * v k + v' k)%R) j =
  (c * sketch_entry sk C D v j + sketch_entry sk C D v' j)%R.
Proof.
  unfold Cbp.sketch_entry. rewrite <- rsum_lin.
  apply rsum_ext. intros k Hk. ring.
Qed.

Lemma dft_re_lin (D : nat) (c : R) (s s' : nat -> R) (k : nat) :
  dft_re D (fun j => (c * s j + s' j)%R) k =
  (c * dft_re D s k + dft_re D s' k)%R.
Proof.
  unfold Cbp.dft_re. rewrite <- rsum_lin.
  apply rsum_ext. intros j Hj. ring.
Qed.

Lemma dft_im_lin (D : nat) (c : R) (s s' : nat -> R) (k : nat) :
  dft_im D (fun j => (c * s j + s' j)%R) k =
  (c * dft_im D s k + dft_im D s' k)%R.
Proof.
  unfold Cbp.dft_im. rewrite <- rsum_lin.
  apply rsum_ext. intros j Hj. ring.
Qed.

Lemma idft_product_lin_l (D : nat) (c : R) (s s' t : nat -> R) (j : nat) :
  idft_product D (fun i => (c * s i + s' i)%R) t j =
  (c * idft_product D s t j + idft_product D s' t j)%R.
Proof.
  unfold Cbp.idft_product.
  transitivity
    (inv_n D *
     (c * rsum D (fun k =>
            (product_re D s t k * cos2pi D (k * j)
             - product_im D s t k * sin2pi D (k * j))%R)
      + rsum D (fun k =>
            (product_re D s' t k * cos2pi D (k * j)
             - product_im D s' t k * sin2pi D (k * j))%R)))%R;
    [| ring].
  f_equal. rewrite <- rsum_lin. apply rsum_ext. intros k Hk.
  unfold Cbp.product_re, Cbp.product_im.
  rewrite dft_re_lin, dft_im_lin. ring.
Qed.

Lemma idft_product_lin_r (D : nat) (c : R) (s t t' : nat -> R) (j : nat) :
  idft_product D s (fun i => (c * t i + t' i)%R) j =
  (c * idft_product D s t j + idft_product D s t' j)%R.
Proof.
  unfold Cbp.idft_product.
  transitivity
    (inv_n D *
     (c * rsum D (fun k =>
            (product_re D s t k * cos2pi D (k * j)
             - product_im D s t k * sin2pi D (k * j))%R)
      + rsum D (fun k =>
            (product_re D s t' k * cos2pi D (k * j)
             - product_im D s t' k * sin2pi D (k * j))%R)))%R;
    [| ring].
  f_equal. rewrite <- rsum_lin. apply rsum_ext. intros k Hk.
  unfold Cbp.product_re, Cbp.product_im.
  rewrite dft_re_lin, dft_im_lin. ring.
Qed.

Lemma cbp_table_lin_l (self : CompactBilinearPooling R)
    (C1 C2 D B H W : nat) (c : R) (x y z : Tensor R) (n j : nat) :
  size x = [B; C1; H; W] -> n < B * H * W ->
  cbp_table self C1 C2 D H W (tlin c x y) z n j =
  (c * cbp_table self C1 C2 D H W x z n j
   + cbp_table self C1 C2 D H W y z n j)%R.
Proof.
  intros Hx Hn. unfold Cbp.cbp_table, Cbp.cbp_entry.
  rewrite <- idft_product_lin_l.
  apply idft_product_ext; intros i Hi; [| reflexivity].
  rewrite <- sketch_entry_lin. apply sketch_entry_ext. intros k Hk.
  now apply channel_vector_lin with (B := B).
Qed.

Lemma cbp_table_lin_r (self : CompactBilinearPooling R)
    (C1 C2 D B H W : nat) (c : R) (x z t : Tensor R) (n j : nat) :
  size z = [B; C2; H; W] -> n < B * H * W ->
  cbp_table self C1 C2 D H W x (tlin c z t) n j =
  (c * cbp_table self C1 C2 D H W x z n j
   + cbp_table self C1 C2 D H W x t n j)%R.
Proof.
  intros Hz Hn. unfold Cbp.cbp_table, Cbp.cbp_entry.
  rewrite <- idft_product_lin_r.
  apply idft_product_ext; intros i Hi; [reflexivity |].
  rewrite <- sketch_entry_lin. apply sketch_entry_ext. intros k Hk.
  now apply channel_vector_lin with (B := B).
Qed.

Lemma forward_table (self : CompactBilinearPooling R) (C1 C2 D B H W : nat)
    (bottom1 bottom2 : Tensor R) :
  valid_instance self C1 C2 D ->
  size bottom1 = [B; C1; H; W] -> size bottom2 = [B; C2; H; W] ->
  forward self bottom1 bottom2 =
  Ok (if sum_pool self
      then mkTensor [B; D]
             (tab2 B D (fun b d =>
                rsum W (fun w =>
                  rsum H (fun h =>
                    cbp_table self C1 C2 D H W bottom1 bottom2
                              ((b * H + h) * W + w) d))))
      else mkTensor [B; H; W; D]
             (tab2 (B * H * W) D
                (cbp_table self C1 C2 D H W bottom1 bottom2))).
Proof.
  intros Hv Hb1 Hb2. destruct (sum_pool self) eqn:Hp.
  - now apply forward_pooled.
  - now apply forward_unpooled.
Qed.

Lemma output_lin (pool : bool) (B H W D : nat) (c : R)
    (F Fx Fy : nat -> nat -> R) :
  (forall n j, n < B * H * W -> j < D -> F n j = (c * Fx n j + Fy n j)%R) ->
  (if pool
   then mkTensor [B; D]
          (tab2 B D (fun b d =>
             rsum W (fun w => rsum H (fun h => F ((b * H + h) * W + w) d))))
   else mkTensor [B; H; W; D] (tab2 (B * H * W) D F))
  = tlin c
      (if pool
       then mkTensor [B; D]
              (tab2 B D (fun b d =>
                 rsum W (fun w => rsum H (fun h => Fx ((b * H + h) * W + w) d))))
       else mkTensor [B; H; W; D] (tab2 (B * H * W) D Fx))
      (if pool
       then mkTensor [B; D]
              (tab2 B D (fun b d =>
                 rsum W (fun w => rsum H (fun h => Fy ((b * H + h) * W + w) d))))
       else mkTensor [B; H; W; D] (tab2 (B * H * W) D Fy)).
Proof.
  intros E. destruct pool; unfold Cbp.tlin; cbn [size storage]; f_equal.
  - replace (numel [B; D]) with (B * D) by (simpl; lia).
    apply tab2_lin. intros b d Hb Hd.
    rewrite <- rsum_lin. apply rsum_ext. intros w Hw.
    rewrite <- rsum_lin. apply rsum_ext. intros h Hh.
    apply E; [now apply location_lt | assumption].
  - replace (numel [B; H; W; D]) with (B * H * W * D) by (simpl; lia).
    now apply tab2_lin.
Qed.

(** C10: [forward] is linear in each input with the other fixed, under the
    ring laws: [forward (c x + y) z = c forward x z + forward y z] and
    [forward x (c z + t) = c forward x z + forward x t]. *)
Theorem C10_forward_bilinear
    (self : CompactBilinearPooling R) (C1 C2 D B H W : nat) (c : R)
    (x y z t : Tensor R) :
  valid_instance self C1 C2 D ->
  size x = [B; C1; H; W] -> size y = [B; C1; H; W] ->
  size z = [B; C2; H; W] -> size t = [B; C2; H; W] ->
  exists oxz oyz oxt,
    forward self x z = Ok oxz /\
    forward self y z = Ok oyz /\
    forward self x t = Ok oxt /\
    forward self (tlin c x y) z = Ok (tlin c oxz oyz) /\
    forward self x (tlin c z t) = Ok (tlin c oxz oxt).
Proof.
  intros Hv Hx Hy Hz Ht.
  do 3 eexists.
  split; [apply (forward_table self C1 C2 D B H W x z Hv Hx Hz)|].
  split; [apply (forward_table self C1 C2 D B H W y z Hv Hy Hz)|].
  split; [apply (forward_table self C1 C2 D B H W x t Hv Hx Ht)|].
  split.
  - rewrite (forward_table self C1 C2 D B H W (tlin c x y) z Hv Hx Hz).
    f_equal. apply output_lin. intros n j Hn Hj.
    now apply cbp_table_lin_l with (B := B).
  - rewrite (forward_table self C1 C2 D B H W x (tlin c z t) Hv Hx Hz).
    f_equal. apply output_lin. intros n j Hn Hj.
    now apply cbp_table_lin_r with (B := B).
Qed.

(** ** Sketch matrices *)

Lemma onehot_sum (i j n a : nat) (hs : list nat) (ss : list R) :
  length hs = n -> length ss = n ->
  rsum_list
    (map (fun e : nat * nat * R =>
            if (fst (fst e) =? i) && (snd (fst e) =? j) then snd e else 0%R)
         (combine (combine (seq a n) hs) ss))
  = if (a <=? i) && (i <? a + n)
    then (if nth (i - a) hs 0 =? j then nth (i - a) ss 0%R else 0%R)
    else 0%R.
Proof.
  revert a hs ss. induction n as [|n IH]; intros a hs ss Hh Hs.
  - simpl. destruct (a <=? i) eqn:E1; destruct (i <? a + 0) eqn:E2;
      try reflexivity.
    apply Nat.leb_le in E1. apply Nat.ltb_lt in E2. lia.
  - destruct hs as [|h hs]; [discriminate|].
    destruct ss as [|s ss]; [discriminate|].
    cbn [seq combine map Cbp.rsum_list fold_right fst snd].
    change (fold_right radd 0%R ?l) with (rsum_list l).
    rewrite (IH (S a) hs ss) by (simpl in *; lia).
    destruct (Nat.eqb_spec a i) as [->|Hne].
    + rewrite Nat.leb_refl, Nat.sub_diag. cbn [andb nth].
      destruct (Nat.leb_spec (S i) i); [lia|]. cbn [andb].
      destruct (Nat.ltb_spec i (i + S n)); [|lia].
      destruct (h =? j); ring.
    + cbn [andb].
      destruct (Nat.leb_spec a i), (Nat.leb_spec (S a) i); try lia;
        cbn [andb]; try ring.
      replace (i - a) with (S (i - S a)) by lia. cbn [nth].
      destruct (Nat.ltb_spec i (S a + n)), (Nat.ltb_spec i (a + S n));
        try lia; ring.
Qed.

Lemma forallb_range (rand_h : list Z) (output_dim : Z) :
  (forall h, In h rand_h -> (0 <= h < output_dim)%Z) ->
  forallb (fun h => (0 <=? h)%Z) rand_h
  && forallb (fun h => (h <? output_dim)%Z) rand_h = true.
Proof.
  intros Hr. apply andb_true_intro. split; apply forallb_forall; intros h Hh.
  - apply Z.leb_le. now apply Hr.
  - apply Z.ltb_lt. now apply Hr.
Qed.

(** [generate_sketch_matrix] on two 1-D numpy arrays: both [astype] calls
    and the two [ndim] assertions pass. *)
Lemma generate_sketch_matrix_1d (rand_h : list Z) (rand_s : list R)
    (output_dim : Z) :
  generate_sketch_matrix (array1d rand_h) (array1d rand_s) output_dim =
  if negb (length rand_h =? length rand_s) then Raise AssertionError
  else if negb (forallb (fun h => (0 <=? h)%Z) rand_h
                && forallb (fun h => (h <? output_dim)%Z) rand_h)
  then Raise AssertionError
  else if (output_dim <? 0)%Z then Raise RuntimeError
  else Ok (to_dense (combine (seq 0 (length rand_h)) (map Z.to_nat rand_h))
                    rand_s (length rand_h) (Z.to_nat output_dim)).
Proof. reflexivity. Qed.

(** A sketch matrix is built whenever the arguments pass the assertions. *)
Lemma generate_sketch_matrix_ok (rand_h : list Z) (rand_s : list R)
    (output_dim : Z) :
  length rand_h = length rand_s ->
  (forall h, In h rand_h -> (0 <= h < output_dim)%Z) ->
  (0 <= output_dim)%Z ->
  generate_sketch_matrix (array1d rand_h) (array1d rand_s) output_dim =
  Ok (to_dense (combine (seq 0 (length rand_h)) (map Z.to_nat rand_h))
               rand_s (length rand_h) (Z.to_nat output_dim)).
Proof.
  intros Hl Hr Hd. rewrite generate_sketch_matrix_1d.
  rewrite Hl, Nat.eqb_refl, forallb_range by assumption. cbn [negb].
  destruct (Z.ltb_spec output_dim 0); [lia | reflexivity].
Qed.

Lemma generate_sketch_matrix_size (rand_h : list Z) (rand_s : list R)
    (output_dim : Z) (m : Tensor R) :
  generate_sketch_matrix (array1d rand_h) (array1d rand_s) output_dim
    = Ok m ->
  size m = [length rand_h; Z.to_nat output_dim] /\
  length rand_s = length rand_h.
Proof.
  rewrite generate_sketch_matrix_1d.
  destruct (Nat.eqb_spec (length rand_h) (length rand_s)) as [E|];
    cbn [negb]; [| discriminate].
  destruct (forallb _ rand_h && forallb _ rand_h); cbn [negb];
    [| discriminate].
  destruct (output_dim <? 0)%Z; [discriminate|].
  intros [= <-]. now split.
Qed.

(** C6: from 1-D numpy index and sign arrays of one length, with indices in
    [[0, output_dim)] and signs [1] or [-1], [generate_sketch_matrix]
    returns a matrix with [length rand_h] rows and [output_dim] columns;
    in row [i] the entry in column [rand_h[i]] is [rand_s[i]], it is not
    zero, and every other entry of the row is zero. *)
Theorem C6_sketch_matrix_one_nonzero_per_row
    (rand_h : list Z) (rand_s : list R) (output_dim : Z) :
  length rand_h = length rand_s ->
  (forall h, In h rand_h -> (0 <= h < output_dim)%Z) ->
  (forall s, In s rand_s -> s = 1%R \/ s = (- (1))%R) ->
  (0 < output_dim)%Z ->
  1%R <> 0%R ->
  exists m,
    generate_sketch_matrix (array1d rand_h) (array1d rand_s) output_dim
      = Ok m /\
    size m = [length rand_h; Z.to_nat output_dim] /\
    tensor_wf m /\
    forall i, i < length rand_h ->
      let D := Z.to_nat output_dim in
      let hi := Z.to_nat (nth i rand_h 0%Z) in
      hi < D /\
      at2 m D i hi = nth i rand_s 0%R /\
      (at2 m D i hi = 1%R \/ at2 m D i hi = (- (1))%R) /\
      at2 m D i hi <> 0%R /\
      forall j, j < D -> j <> hi -> at2 m D i j = 0%R.
Proof.
  intros Hl Hr Hs Hd H10.
  eexists. split; [apply generate_sketch_matrix_ok; auto; lia|].
  split; [reflexivity|].
  split.
  { unfold tensor_wf, Cbp.to_dense, tab2.
    cbn [size storage numel fold_right]. rewrite length_tab. lia. }
  intros i Hi. cbv zeta.
  set (D := Z.to_nat output_dim). set (hi := Z.to_nat (nth i rand_h 0%Z)).
  assert (Hhi : hi < D).
  { subst hi D. specialize (Hr (nth i rand_h 0%Z) (nth_In _ _ Hi)). lia. }
  assert (Hent : forall j, j < D ->
            at2 (to_dense (combine (seq 0 (length rand_h))
                                   (map Z.to_nat rand_h))
                          rand_s (length rand_h) D) D i j
            = if hi =? j then nth i rand_s 0%R else 0%R).
  { intros j Hj. unfold Cbp.to_dense.
    rewrite at2_mk_tab2 by assumption.
    rewrite (onehot_sum i j (length rand_h) 0)
      by (now rewrite ?length_map; auto).
    cbn [Nat.leb andb]. rewrite Nat.sub_0_r.
    destruct (Nat.ltb_spec i (0 + length rand_h)); [|lia].
    subst hi.
    change 0 with (Z.to_nat 0%Z) at 1. now rewrite map_nth. }
  assert (Hsi : nth i rand_s 0%R = 1%R \/ nth i rand_s 0%R = (- (1))%R).
  { apply Hs. apply nth_In. lia. }
  split; [assumption|].
  rewrite (Hent hi Hhi), Nat.eqb_refl.
  split; [reflexivity|]. split; [assumption|]. split.
  - destruct Hsi as [-> | ->]; [assumption|].
    intros Hm. apply H10.
    transitivity (- - (1))%R; [ring|]. rewrite Hm. ring.
  - intros j Hj Hne. rewrite (Hent j Hj).
    destruct (Nat.eqb_spec hi j); [congruence | reflexivity].
Qed.

(** ** Errors of construction *)

Lemma generate_sketch_matrix_rejects (rand_h : list Z) (rand_s : list R)
    (output_dim : Z) :
  rejected_spec rand_h rand_s output_dim ->
  generate_sketch_matrix (array1d rand_h) (array1d rand_s) output_dim
  = Raise AssertionError.
Proof.
  intros [Hl | (h & Hin & Hr)]; rewrite generate_sketch_matrix_1d.
  - destruct (Nat.eqb_spec (length rand_h) (length rand_s)); [contradiction|].
    reflexivity.
  - destruct (negb (length rand_h =? length rand_s)); [reflexivity|].
    destruct (forallb (fun h => (0 <=? h)%Z) rand_h) eqn:E1;
      [| reflexivity].
    destruct (forallb (fun h => (h <? output_dim)%Z) rand_h) eqn:E2;
      [| reflexivity].
    exfalso. apply Hr.
    rewrite forallb_forall in E1, E2.
    specialize (E1 h Hin). specialize (E2 h Hin).
    apply Z.leb_le in E1. apply Z.ltb_lt in E2. lia.
Qed.

(** No index lies in [[0, output_dim)] when [output_dim] is not positive. *)
Lemma nonpositive_output_dim_rejected (rand_h : list Z) (rand_s : list R)
    (output_dim : Z) :
  (output_dim <= 0)%Z -> rand_h <> [] ->
  rejected_spec rand_h rand_s output_dim.
Proof.
  intros Hd Hne. right. destruct rand_h as [|h l]; [contradiction|].
  exists h. split; [now left | lia].
Qed.

(** C3 (amended): with the four sequences supplied as 1-D numpy arrays,
    construction raises an assertion error, and leaves the generator as it
    was, when the first pair has different lengths or an index outside
    [[0, output_dim)], when [output_dim] is not positive and [rand_h_1] is
    not empty, or when [generate_sketch_matrix] accepts the first pair and
    the second pair has different lengths or an index outside
    [[0, output_dim)]. *)
Theorem C3_rejected_specs_raise
    (input_dim1 input_dim2 output_dim : Z) (sum_pool : bool)
    (rand_h_1 : list Z) (rand_s_1 : list R)
    (rand_h_2 : list Z) (rand_s_2 : list R) (g : generator) :
  rejected_spec rand_h_1 rand_s_1 output_dim \/
  ((output_dim <= 0)%Z /\ rand_h_1 <> []) \/
  (is_ok (generate_sketch_matrix (array1d rand_h_1) (array1d rand_s_1)
                                 output_dim) = true /\
   rejected_spec rand_h_2 rand_s_2 output_dim) ->
  __init__ input_dim1 input_dim2 output_dim sum_pool
    (Some (array1d rand_h_1)) (Some (array1d rand_s_1))
    (Some (array1d rand_h_2)) (Some (array1d rand_s_2)) g
  = (Raise AssertionError, g).
Proof.
  intros [H1 | [[Hd Hne] | [H1 H2]]];
    unfold Cbp.__init__, bindM, retM, lift.
  - now rewrite (generate_sketch_matrix_rejects _ _ _ H1).
  - now rewrite (generate_sketch_matrix_rejects _ _ _
                   (nonpositive_output_dim_rejected _ rand_s_1 _ Hd Hne)).
  - destruct (generate_sketch_matrix (array1d rand_h_1) (array1d rand_s_1)
                                     output_dim);
      [| discriminate].
    now rewrite (generate_sketch_matrix_rejects _ _ _ H2).
Qed.

(** ** The generator *)

(** [torch.randint] on a positive bound and a non-negative count. *)
Lemma randint_run (high n : Z) (g : generator) :
  (0 < high)%Z -> (0 <= n)%Z ->
  randint mt_stream high n g =
  (Ok (TorchTensor [Z.to_nat n]
         (map (fun i => (mt_stream (seed g) (offset g + i) mod high)%Z)
              (seq 0 (Z.to_nat n)))),
   mkGenerator (seed g) (offset g + Z.to_nat n)).
Proof.
  intros Hh Hn. unfold randint.
  destruct (Z.leb_spec high 0); [lia|].
  destruct (Z.ltb_spec n 0); [lia|]. reflexivity.
Qed.

(** A torch tensor in either argument stops [generate_sketch_matrix] at
    [astype]. *)
Lemma generate_sketch_matrix_tensor_h (shape : list nat) (data : list Z)
    (rand_s : array R) (output_dim : Z) :
  generate_sketch_matrix (TorchTensor shape data) rand_s output_dim
  = Raise AttributeError.
Proof. reflexivity. Qed.

Lemma generate_sketch_matrix_tensor_s (rand_h : array Z) (shape : list nat)
    (data : list R) (output_dim : Z) :
  generate_sketch_matrix rand_h (TorchTensor shape data) output_dim
  = Raise AttributeError.
Proof. destruct rand_h; reflexivity. Qed.


(** ** Construction does not read the generator *)

Lemma state_independent_ret {A : Type} (a : A) : state_independent (retM a).
Proof. intros g1 g2. reflexivity. Qed.

Lemma state_independent_lift {A : Type} (r : result A) :
  state_independent (lift r).
Proof. intros g1 g2. reflexivity. Qed.

Lemma state_independent_seed {A : Type} (s : Z) (k : unit -> M A) :
  state_independent (bindM (manual_seed s) k).
Proof. intros g1 g2. reflexivity. Qed.

Lemma state_independent_bind {A B : Type} (m : M A) (k : A -> M B) :
  state_independent m -> (forall a, state_independent (k a)) ->
  state_independent (bindM m k).
Proof.
  intros Hm Hk g1 g2. unfold bindM. specialize (Hm g1 g2).
  destruct (m g1) as [[a1|e1] g1'], (m g2) as [[a2|e2] g2'];
    cbn [fst] in Hm; try discriminate.
  - injection Hm as ->. apply Hk.
  - injection Hm as ->. reflexivity.
Qed.

(** Two constructions with the same arguments return the same instance or
    raise the same exception, whatever the state of the generator. *)
Lemma init_state_independent
    (input_dim1 input_dim2 output_dim : Z) (sum_pool : bool)
    (rand_h_1 : option (array Z)) (rand_s_1 : option (array R))
    (rand_h_2 : option (array Z)) (rand_s_2 : option (array R)) :
  state_independent
    (__init__ input_dim1 input_dim2 output_dim sum_pool
       rand_h_1 rand_s_1 rand_h_2 rand_s_2).
Proof.
  unfold Cbp.__init__.
  repeat first
    [ apply state_independent_ret
    | apply state_independent_lift
    | apply state_independent_seed
    | apply state_independent_bind; [| intros ?]
    | match goal with
      | |- state_independent (match ?o with _ => _ end) => destruct o
      end ].
Qed.

(** ** Errors of [forward] *)

(** C2 (amended): [forward] raises an assertion error, as its first step,
    when the channel dimension of [bottom1] differs from [input_dim1] or
    that of [bottom2] differs from [input_dim2]. *)
Theorem C2_wrong_channel_dimension_raises
    (self : CompactBilinearPooling R) (bottom1 bottom2 : Tensor R)
    (c1 c2 : nat) :
  size_at bottom1 1 = Ok c1 -> size_at bottom2 1 = Ok c2 ->
  Z.of_nat c1 <> input_dim1 self \/ Z.of_nat c2 <> input_dim2 self ->
  forward self bottom1 bottom2 = Raise AssertionError.
Proof.
  intros H1 H2 Hne. unfold Cbp.forward. rewrite H1. cbn [bind].
  destruct (Z.eqb_spec (Z.of_nat c1) (input_dim1 self)); [| reflexivity].
  rewrite H2. cbn [bind].
  destruct (Z.eqb_spec (Z.of_nat c2) (input_dim2 self)); [| reflexivity].
  destruct Hne; contradiction.
Qed.

(** ** Construction establishes validity *)

Lemma bindM_ok_inv {A B : Type} (m : M A) (k : A -> M B)
    (g g' : generator) (b : B) :
  bindM m k g = (Ok b, g') ->
  exists a g1, m g = (Ok a, g1) /\ k a g1 = (Ok b, g').
Proof.
  unfold bindM. destruct (m g) as [[a|e] g1]; [| discriminate].
  intros E. now exists a, g1.
Qed.

(** An instance returned by [__init__] for positive input dimensions and
    index arrays of those lengths is valid. *)
Lemma init_valid (C1 C2 D : nat) (pool : bool)
    (rand_h_1 : list Z) (rand_s_1 : list R)
    (rand_h_2 : list Z) (rand_s_2 : list R)
    (g g' : generator) (self : CompactBilinearPooling R) :
  0 < C1 -> 0 < C2 -> length rand_h_1 = C1 -> length rand_h_2 = C2 ->
  __init__ (Z.of_nat C1) (Z.of_nat C2) (Z.of_nat D) pool
    (Some (array1d rand_h_1)) (Some (array1d rand_s_1))
    (Some (array1d rand_h_2)) (Some (array1d rand_s_2)) g = (Ok self, g') ->
  valid_instance self C1 C2 D /\ sum_pool self = pool.
Proof.
  intros HC1 HC2 Hh1 Hh2 E. unfold Cbp.__init__ in E.
  apply bindM_ok_inv in E as (h1 & ga & Eh1 & E).
  apply bindM_ok_inv in E as (s1 & gb & Es1 & E).
  apply bindM_ok_inv in E as (m1 & gc & Em1 & E).
  apply bindM_ok_inv in E as (h2 & gd & Eh2 & E).
  apply bindM_ok_inv in E as (s2 & ge & Es2 & E).
  apply bindM_ok_inv in E as (m2 & gf & Em2 & E).
  injection E as <- _.
  injection Eh1 as <- _. injection Es1 as <- _.
  injection Eh2 as <- _. injection Es2 as <- _.
  unfold lift in Em1, Em2.
  injection Em1 as Em1 _. injection Em2 as Em2 _.
  apply generate_sketch_matrix_size in Em1 as [Em1 _].
  apply generate_sketch_matrix_size in Em2 as [Em2 _].
  rewrite Hh1, Nat2Z.id in Em1. rewrite Hh2, Nat2Z.id in Em2.
  unfold valid_instance. cbn. auto 10.
Qed.

(** * Further properties of the code *)

(** ** Inputs whose sizes differ *)

Lemma broadcast_dim_rows (n1 n2 : nat) :
  n2 = n1 \/ n2 = 1 -> broadcast_dim n1 n2 = Ok n1.
Proof.
  intros [-> | ->]; unfold broadcast_dim.
  - now rewrite Nat.eqb_refl.
  - destruct (Nat.eqb_spec n1 1) as [-> | Hne]; [reflexivity|].
    destruct (Nat.eqb_spec n1 1); [contradiction | reflexivity].
Qed.

Lemma bidx_rows_lt (n1 n2 i : nat) :
  n2 = n1 \/ n2 = 1 -> i < n1 -> bidx n2 i < n2.
Proof.
  intros [-> | ->] Hi; unfold bidx.
  - destruct (n1 =? 1); lia.
  - cbn. lia.
Qed.

Lemma pointwise_rows (f : R -> R -> R) (a b : Tensor R) (n1 n2 d : nat) :
  size a = [n1; d] -> size b = [n2; d] -> n2 = n1 \/ n2 = 1 ->
  pointwise f a b =
  Ok (mkTensor [n1; d]
        (tab2 n1 d (fun i j => f (at2 a d i j) (at2 b d (bidx n2 i) j)))).
Proof.
  intros Ha Hb Hn. unfold Cbp.pointwise.
  rewrite Ha, Hb, (broadcast_dim_rows n1 n2 Hn), broadcast_dim_same.
  cbn [bind]. do 2 f_equal. apply tab2_ext. intros i j Hi Hj.
  now rewrite (bidx_lt n1 i Hi), !(bidx_lt d j Hj).
Qed.

(** [forward] on inputs with [N1] and [N2] locations, where [N2] is [N1]
    or 1: the sizes come from [bottom1], and row [n] of the flattened
    [bottom1] meets row [n] (or the only row) of the flattened [bottom2]. *)
Lemma forward_rows (self : CompactBilinearPooling R)
    (C1 C2 D B1 H1 W1 B2 H2 W2 : nat) (bottom1 bottom2 : Tensor R) :
  valid_instance self C1 C2 D ->
  size bottom1 = [B1; C1; H1; W1] -> size bottom2 = [B2; C2; H2; W2] ->
  B2 * H2 * W2 = B1 * H1 * W1 \/ B2 * H2 * W2 = 1 ->
  forward self bottom1 bottom2 =
  let cbp :=
    mkTensor [B1; H1; W1; D]
      (tab2 (B1 * H1 * W1) D (fun n j =>
         cbp_entry self C1 C2 D
           (channel_vector bottom1 C1 H1 W1 n)
           (channel_vector bottom2 C2 H2 W2 (bidx (B2 * H2 * W2) n)) j)) in
  if sum_pool self then s <- sum_dim1 cbp ;; sum_dim1 s else Ok cbp.
Proof.
  intros (Hd1 & Hd2 & Hd & HC1 & HC2 & Hs1 & Hs2) Hb1 Hb2 HN.
  unfold Cbp.forward, size_at. rewrite Hb1, Hb2. simpl nth_error. cbn iota.
  simpl bind at 1.
  rewrite Hd1, Hd2, Hd, !Z.eqb_refl. simpl bind at 1. simpl bind at 1.
  unfold Cbp.permute_0231. rewrite Hb1, Hb2.
  cbn [bind].
  rewrite (view_rows_ok _ B1 H1 W1 C1) by (reflexivity || assumption).
  cbn [bind].
  rewrite (view_rows_ok _ B2 H2 W2 C2) by (reflexivity || assumption).
  cbn [bind].
  rewrite (mm_ok _ _ (B1 * H1 * W1) C1 D) by (reflexivity || assumption).
  cbn [bind].
  rewrite (mm_ok _ _ (B2 * H2 * W2) C2 D) by (reflexivity || assumption).
  cbn [bind].
  unfold Cbp.Fft. cbn [size]. rewrite !shape_eqb_refl. cbn [bind].
  unfold Cbp.mul, Cbp.sub, Cbp.add.
  rewrite !(pointwise_rows _ _ _ (B1 * H1 * W1) (B2 * H2 * W2) D)
    by (reflexivity || assumption).
  cbn [bind].
  rewrite !(pointwise_ok _ _ _ (B1 * H1 * W1) D) by reflexivity. cbn [bind].
  unfold Cbp.Ifft. cbn [size]. rewrite !shape_eqb_refl. cbn [bind].
  rewrite view4_ok by reflexivity. cbn [bind storage].
  match goal with
  | |- (if _ then bind (sum_dim1 (mkTensor _ ?T1)) _ else _) =
       (if _ then bind (sum_dim1 (mkTensor _ ?T2)) _ else _) =>
      assert (E : T1 = T2); [| now rewrite E]
  end.
  apply tab2_ext. intros n j Hn Hj.
  assert (Hn2 := bidx_rows_lt (B1 * H1 * W1) (B2 * H2 * W2) n HN Hn).
  unfold Cbp.cbp_entry, Cbp.idft_product.
  f_equal. apply rsum_ext. intros k Hk.
  rewrite !at2_mk_tab2 by assumption.
  unfold Cbp.product_re, Cbp.product_im.
  rewrite (@fft_re_row _ (B1 * H1 * W1) D n k _
             (fun j0 Hj0 => @sketch_at bottom1 (sparse_sketch_matrix1 self)
                              B1 C1 H1 W1 D n j0 Hn Hj0)).
  rewrite (@fft_im_row _ (B1 * H1 * W1) D n k _
             (fun j0 Hj0 => @sketch_at bottom1 (sparse_sketch_matrix1 self)
                              B1 C1 H1 W1 D n j0 Hn Hj0)).
  rewrite (@fft_re_row _ (B2 * H2 * W2) D (bidx (B2 * H2 * W2) n) k _
             (fun j0 Hj0 => @sketch_at bottom2 (sparse_sketch_matrix2 self)
                              B2 C2 H2 W2 D _ j0 Hn2 Hj0)).
  rewrite (@fft_im_row _ (B2 * H2 * W2) D (bidx (B2 * H2 * W2) n) k _
             (fun j0 Hj0 => @sketch_at bottom2 (sparse_sketch_matrix2 self)
                              B2 C2 H2 W2 D _ j0 Hn2 Hj0)).
  reflexivity.
Qed.

(** X1: [forward] takes the batch and spatial sizes from [bottom1] alone.
    When [bottom2] has as many locations as [bottom1] (whatever its batch,
    height and width) or a single location, [forward] returns a tensor of
    the size of [bottom1]'s locations, in which location [(b, h, w)] of
    [bottom1] is combined with the location of [bottom2] at the same
    position of the flattened layout (or with its only location). *)
Theorem X1_forward_pairs_locations_by_flat_position
    (self : CompactBilinearPooling R)
    (C1 C2 D B1 H1 W1 B2 H2 W2 : nat) (bottom1 bottom2 : Tensor R) :
  valid_instance self C1 C2 D -> sum_pool self = false ->
  size bottom1 = [B1; C1; H1; W1] -> size bottom2 = [B2; C2; H2; W2] ->
  B2 * H2 * W2 = B1 * H1 * W1 \/ B2 * H2 * W2 = 1 ->
  exists out,
    forward self bottom1 bottom2 = Ok out /\
    size out = [B1; H1; W1; D] /\
    forall b h w d, b < B1 -> h < H1 -> w < W1 -> d < D ->
      at4 out H1 W1 D b h w d =
      cbp_entry self C1 C2 D
        (channel_vector bottom1 C1 H1 W1 ((b * H1 + h) * W1 + w))
        (channel_vector bottom2 C2 H2 W2
           (bidx (B2 * H2 * W2) ((b * H1 + h) * W1 + w))) d.
Proof.
  intros Hv Hp Hb1 Hb2 HN.
  rewrite (forward_rows self C1 C2 D B1 H1 W1 B2 H2 W2 _ _ Hv Hb1 Hb2 HN).
  cbv zeta. rewrite Hp. eexists. split; [reflexivity|].
  split; [reflexivity|].
  intros b h w d Hb Hh Hw Hd. now rewrite at4_table.
Qed.

Lemma Ifft_rows (re im : Tensor R) (n d : nat) :
  size re = [n; d] -> size im = [n; d] ->
  exists t u, Ifft re im = Ok (t, u) /\ size t = [n; d].
Proof.
  intros Hr Hi. unfold Cbp.Ifft. rewrite Hr, Hi, shape_eqb_refl.
  do 2 eexists. split; reflexivity.
Qed.

Lemma view4_mismatch (t : Tensor R) (n B H W D : nat) :
  size t = [n; D] -> n * D <> B * H * W * D ->
  view4 t B H W (Z.of_nat D) = Raise RuntimeError.
Proof.
  intros Hs Hne. unfold view4. rewrite Hs.
  destruct (Z.eqb_spec (Z.of_nat D) (-1)); [lia|].
  destruct (Z.ltb_spec (Z.of_nat D) 0); [lia|].
  rewrite Nat2Z.id.
  replace (numel [n; D]) with (n * D) by (simpl; lia).
  destruct (Nat.eqb_spec (n * D) (B * H * W * D)); [contradiction|].
  reflexivity.
Qed.

(** X2: when the two inputs have different numbers of locations and
    [bottom2] has more than one (positive [output_dim]), [forward] raises a
    runtime error: in the element-wise product, or, when [bottom1] has a
    single location, in the final [view]. *)
Theorem X2_location_count_mismatch_raises
    (self : CompactBilinearPooling R)
    (C1 C2 D B1 H1 W1 B2 H2 W2 : nat) (bottom1 bottom2 : Tensor R) :
  valid_instance self C1 C2 D -> 0 < D ->
  size bottom1 = [B1; C1; H1; W1] -> size bottom2 = [B2; C2; H2; W2] ->
  B2 * H2 * W2 <> B1 * H1 * W1 -> B2 * H2 * W2 <> 1 ->
  forward self bottom1 bottom2 = Raise RuntimeError.
Proof.
  intros (Hd1 & Hd2 & Hd & HC1 & HC2 & Hs1 & Hs2) HD Hb1 Hb2 Hne Hne1.
  unfold Cbp.forward, size_at. rewrite Hb1, Hb2. simpl nth_error. cbn iota.
  simpl bind at 1.
  rewrite Hd1, Hd2, Hd, !Z.eqb_refl. simpl bind at 1. simpl bind at 1.
  unfold Cbp.permute_0231. rewrite Hb1, Hb2.
  cbn [bind].
  rewrite (view_rows_ok _ B1 H1 W1 C1) by (reflexivity || assumption).
  cbn [bind].
  rewrite (view_rows_ok _ B2 H2 W2 C2) by (reflexivity || assumption).
  cbn [bind].
  rewrite (mm_ok _ _ (B1 * H1 * W1) C1 D) by (reflexivity || assumption).
  cbn [bind].
  rewrite (mm_ok _ _ (B2 * H2 * W2) C2 D) by (reflexivity || assumption).
  cbn [bind].
  unfold Cbp.Fft. cbn [size]. rewrite !shape_eqb_refl. cbn [bind].
  unfold Cbp.mul, Cbp.sub, Cbp.add.
  remember (B1 * H1 * W1) as N1 eqn:EN1.
  remember (B2 * H2 * W2) as N2 eqn:EN2.
  unfold Cbp.pointwise at 1. cbn [size].
  unfold broadcast_dim at 1.
  destruct (Nat.eqb_spec N1 N2) as [E | _]; [congruence|].
  destruct (Nat.eqb_spec N2 1) as [E | _]; [contradiction|].
  destruct (Nat.eqb_spec N1 1) as [E1 | _]; [| reflexivity].
  rewrite broadcast_dim_same. cbn [bind].
  unfold Cbp.pointwise at 1. cbn [size].
  unfold broadcast_dim at 1.
  destruct (Nat.eqb_spec N1 N2) as [E | _]; [congruence|].
  destruct (Nat.eqb_spec N1 1) as [_ | E]; [| contradiction].
  rewrite broadcast_dim_same. cbn [bind].
  rewrite !(pointwise_ok _ _ _ N2 D) by reflexivity. cbn [bind].
  match goal with
  | |- bind (Ifft ?re ?im) _ = _ =>
      destruct (Ifft_rows re im N2 D eq_refl eq_refl) as (t & u & -> & Ht)
  end.
  cbn [bind].
  rewrite (view4_mismatch t N2 B1 H1 W1 D Ht); [reflexivity|].
  rewrite <- EN1, E1. nia.
Qed.

(** ** The order of the checks of [forward] *)

(** X3: the assertion of [forward] stops at the first failing comparison:
    when the channel dimension of [bottom1] is wrong, [forward] raises the
    assertion error whatever [bottom2] is, even a tensor without a
    dimension 1. *)
Theorem X3_first_channel_check_ignores_bottom2
    (self : CompactBilinearPooling R) (bottom1 bottom2 : Tensor R) (c1 : nat) :
  size_at bottom1 1 = Ok c1 -> Z.of_nat c1 <> input_dim1 self ->
  forward self bottom1 bottom2 = Raise AssertionError.
Proof.
  intros H1 Hne. unfold Cbp.forward. rewrite H1. cbn [bind].
  destruct (Z.eqb_spec (Z.of_nat c1) (input_dim1 self)); [contradiction|].
  reflexivity.
Qed.

(** X4: an input [bottom1] whose channel dimension is right but which is
    not 4-dimensional passes the assertion and fails when its size is
    unpacked, with a value error, before [bottom2]'s layout is touched. *)
Theorem X4_bottom1_not_4d_raises_value_error
    (self : CompactBilinearPooling R) (bottom1 bottom2 : Tensor R)
    (c1 c2 : nat) :
  size_at bottom1 1 = Ok c1 -> size_at bottom2 1 = Ok c2 ->
  Z.of_nat c1 = input_dim1 self -> Z.of_nat c2 = input_dim2 self ->
  length (size bottom1) <> 4 ->
  forward self bottom1 bottom2 = Raise ValueError.
Proof.
  intros H1 H2 E1 E2 Hlen. unfold Cbp.forward.
  rewrite H1. cbn [bind]. rewrite E1, Z.eqb_refl, H2. cbn [bind].
  rewrite E2, Z.eqb_refl. cbn [bind].
  destruct (size bottom1) as [|a [|b [|c [|d [|e l]]]]]; try reflexivity.
  cbn in Hlen. contradiction.
Qed.

(** ** Symmetry *)

Lemma idft_product_sym (D : nat) (s t : nat -> R) (j : nat) :
  idft_product D s t j = idft_product D t s j.
Proof.
  unfold Cbp.idft_product. f_equal. apply rsum_ext. intros k Hk.
  unfold Cbp.product_re, Cbp.product_im. ring.
Qed.

(** X5: exchanging the two streams (the two inputs together with their
    sketch matrices and dimensions) does not change the output of
    [forward], under the ring laws. *)
Theorem X5_forward_symmetric_in_streams
    (self : CompactBilinearPooling R) (C1 C2 D B H W : nat)
    (bottom1 bottom2 : Tensor R) :
  valid_instance self C1 C2 D ->
  size bottom1 = [B; C1; H; W] -> size bottom2 = [B; C2; H; W] ->
  exists out,
    forward self bottom1 bottom2 = Ok out /\
    forward (swap_streams self) bottom2 bottom1 = Ok out.
Proof.
  intros Hv Hb1 Hb2.
  assert (Hv' : valid_instance (swap_streams self) C2 C1 D).
  { destruct Hv as (Hd1 & Hd2 & Hd & HC1 & HC2 & Hs1 & Hs2).
    unfold valid_instance. cbn. auto 10. }
  eexists. split; [apply (forward_table self C1 C2 D B H W _ _ Hv Hb1 Hb2)|].
  rewrite (forward_table (swap_streams self) C2 C1 D B H W _ _ Hv' Hb2 Hb1).
  cbn [sum_pool swap_streams].
  assert (E : forall n j,
            cbp_table (swap_streams self) C2 C1 D H W bottom2 bottom1 n j =
            cbp_table self C1 C2 D H W bottom1 bottom2 n j).
  { intros n j. unfold Cbp.cbp_table, Cbp.cbp_entry. cbn [swap_streams
      sparse_sketch_matrix1 sparse_sketch_matrix2]. apply idft_product_sym. }
  f_equal. destruct (sum_pool self); f_equal; apply tab2_ext; intros.
  - apply rsum_ext. intros w Hw. apply rsum_ext. intros h Hh. apply E.
  - apply E.
Qed.

(** ** The count sketch *)

Lemma forallb_false_witness {A : Type} (f : A -> bool) (l : list A) :
  forallb f l = false -> exists x, In x l /\ f x = false.
Proof.
  induction l as [|a l IH]; simpl; [discriminate|].
  destruct (f a) eqn:Ea; simpl.
  - intros H. destruct (IH H) as (x & Hx & Hf). exists x. auto.
  - intros _. exists a. auto.
Qed.

Lemma range_check_fails (h : list Z) (output_dim : Z) :
  forallb (fun x => (0 <=? x)%Z) h
  && forallb (fun x => (x <? output_dim)%Z) h = false <->
  exists x, In x h /\ ~ (0 <= x < output_dim)%Z.
Proof.
  split.
  - intros E. apply andb_false_iff in E as [E | E];
      destruct (forallb_false_witness _ _ E) as (x & Hin & Hf);
      exists x; (split; [assumption|]).
    + apply Z.leb_gt in Hf. lia.
    + apply Z.ltb_ge in Hf. lia.
  - intros (x & Hin & Hr).
    destruct (forallb (fun x => (0 <=? x)%Z) h) eqn:E1; [| reflexivity].
    destruct (forallb (fun x => (x <? output_dim)%Z) h) eqn:E2;
      [| reflexivity].
    exfalso. apply Hr. rewrite forallb_forall in E1, E2.
    specialize (E1 x Hin). specialize (E2 x Hin).
    apply Z.leb_le in E1. apply Z.ltb_lt in E2. lia.
Qed.

(** X6: [generate_sketch_matrix] raises the assertion error exactly when
    both arguments are numpy arrays and one of them is not 1-dimensional,
    their lengths differ, or some index is outside [[0, output_dim)]. *)
Theorem X6_assertion_error_iff_assertion_fails
    (rand_h : array Z) (rand_s : array R) (output_dim : Z) :
  generate_sketch_matrix rand_h rand_s output_dim = Raise AssertionError <->
  assertion_fails rand_h rand_s output_dim.
Proof.
  unfold assertion_fails. split.
  - destruct rand_h as [shape_h h | shape_h h]; [| discriminate].
    destruct rand_s as [shape_s s | shape_s s]; [| discriminate].
    unfold Cbp.generate_sketch_matrix. cbn [astype bind].
    intros E. exists shape_h, h, shape_s, s.
    split; [reflexivity|]. split; [reflexivity|].
    destruct (Nat.eqb_spec (length shape_h) 1); [| now left].
    destruct (Nat.eqb_spec (length shape_s) 1); [| now right; left].
    destruct (Nat.eqb_spec (hd 0 shape_h) (hd 0 shape_s));
      [| now right; right; left].
    cbn [andb negb] in E. right. right. right.
    apply range_check_fails.
    destruct (forallb (fun x => (0 <=? x)%Z) h
              && forallb (fun x => (x <? output_dim)%Z) h);
      [| reflexivity].
    cbn [negb] in E. destruct (output_dim <? 0)%Z; discriminate.
  - intros (shape_h & h & shape_s & s & -> & -> & H).
    unfold Cbp.generate_sketch_matrix. cbn [astype bind].
    destruct (Nat.eqb_spec (length shape_h) 1) as [E1|]; [| reflexivity].
    destruct (Nat.eqb_spec (length shape_s) 1) as [E2|]; [| reflexivity].
    destruct (Nat.eqb_spec (hd 0 shape_h) (hd 0 shape_s)) as [E3|];
      [| reflexivity].
    cbn [andb negb].
    destruct H as [H | [H | [H | H]]]; try contradiction.
    apply range_check_fails in H. now rewrite H.
Qed.

(** Entry [(i, j)] of a sketch matrix. *)
Lemma sketch_matrix_entry (rand_h : list Z) (rand_s : list R)
    (output_dim : Z) (m : Tensor R) (i j : nat) :
  generate_sketch_matrix (array1d rand_h) (array1d rand_s) output_dim
    = Ok m ->
  i < length rand_h -> j < Z.to_nat output_dim ->
  at2 m (Z.to_nat output_dim) i j =
  if Z.to_nat (nth i rand_h 0%Z) =? j then nth i rand_s 0%R else 0%R.
Proof.
  intros Hm Hi Hj.
  destruct (generate_sketch_matrix_size _ _ _ _ Hm) as [_ Hl].
  rewrite generate_sketch_matrix_1d in Hm.
  destruct (negb (length rand_h =? length rand_s)); [discriminate|].
  destruct (negb _); [discriminate|].
  destruct (output_dim <? 0)%Z; [discriminate|].
  injection Hm as <-. unfold Cbp.to_dense.
  rewrite at2_mk_tab2 by assumption.
  rewrite (onehot_sum i j (length rand_h) 0)
    by (now rewrite ?length_map; auto).
  cbn [Nat.leb andb]. rewrite Nat.sub_0_r.
  destruct (Nat.ltb_spec i (0 + length rand_h)); [|lia].
  change 0 with (Z.to_nat 0%Z) at 1. now rewrite map_nth.
Qed.

(** X7: multiplying a matrix of channel vectors by a sketch matrix is the
    count sketch: entry [j] of the sketch of row [r] is the sum, over the
    channels [c] whose index [rand_h[c]] is [j], of [x[r, c] * rand_s[c]]. *)
Theorem X7_mm_with_sketch_matrix_is_count_sketch
    (rand_h : list Z) (rand_s : list R) (output_dim : Z)
    (m x : Tensor R) (n : nat) :
  generate_sketch_matrix (array1d rand_h) (array1d rand_s) output_dim
    = Ok m ->
  size x = [n; length rand_h] ->
  exists out,
    mm x m = Ok out /\
    size out = [n; Z.to_nat output_dim] /\
    forall r j, r < n -> j < Z.to_nat output_dim ->
      at2 out (Z.to_nat output_dim) r j =
      rsum (length rand_h) (fun c =>
        if Z.to_nat (nth c rand_h 0%Z) =? j
        then (at2 x (length rand_h) r c * nth c rand_s 0%R)%R
        else 0%R).
Proof.
  intros Hm Hx.
  destruct (generate_sketch_matrix_size _ _ _ _ Hm) as [Hs _].
  rewrite (mm_ok x m n (length rand_h) (Z.to_nat output_dim) Hx Hs).
  eexists. split; [reflexivity|]. split; [reflexivity|].
  intros r j Hr Hj. rewrite at2_mk_tab2 by assumption.
  apply rsum_ext. intros c Hc.
  rewrite (sketch_matrix_entry _ _ _ _ c j Hm Hc Hj).
  destruct (Z.to_nat (nth c rand_h 0%Z) =? j); ring.
Qed.

(** ** Construction with defaults and with sequences of other lengths *)

(** X8: when [rand_h_1] or [rand_s_1] is left to its default (positive
    [output_dim], non-negative [input_dim1]), construction raises an
    attribute error: the default is drawn by [torch.randint] as a torch
    tensor, and [generate_sketch_matrix] calls the numpy method [astype] on
    it.  The other arguments play no part. *)
Theorem X8_defaulted_sequence_raises_attribute_error
    (input_dim1 input_dim2 output_dim : Z) (pool : bool)
    (rand_h_1 : option (array Z)) (rand_s_1 : option (array R))
    (rand_h_2 : option (array Z)) (rand_s_2 : option (array R))
    (g : generator) :
  rand_h_1 = None \/ rand_s_1 = None ->
  (0 < output_dim)%Z -> (0 <= input_dim1)%Z ->
  fst (__init__ input_dim1 input_dim2 output_dim pool
         rand_h_1 rand_s_1 rand_h_2 rand_s_2 g) = Raise AttributeError.
Proof.
  intros Hnone Hd H1.
  unfold Cbp.__init__, bindM, manual_seed, retM, lift.
  destruct rand_h_1 as [h1|], rand_s_1 as [s1|];
    [destruct Hnone; discriminate | | |];
    rewrite ?randint_run by lia; cbn [seed offset array_map];
    rewrite ?randint_run by lia; cbn [seed offset array_map];
    rewrite ?generate_sketch_matrix_tensor_s,
      ?generate_sketch_matrix_tensor_h; reflexivity.
Qed.

(** X9: [__init__] never compares the length of a supplied pair with
    [input_dim1].  A pair of another length is accepted, and every call of
    [forward] on inputs with [input_dim1] channels then passes the
    assertion and fails in the matrix product with a runtime error. *)
Theorem X9_supplied_pair_of_other_length_fails_in_mm
    (C1 C2 : nat) (output_dim : Z) (pool : bool)
    (rand_h_1 : list Z) (rand_s_1 : list R)
    (rand_h_2 : option (array Z)) (rand_s_2 : option (array R))
    (g g' : generator) (self : CompactBilinearPooling R)
    (B1 H1 W1 B2 H2 W2 : nat) (bottom1 bottom2 : Tensor R) :
  __init__ (Z.of_nat C1) (Z.of_nat C2) output_dim pool
    (Some (array1d rand_h_1)) (Some (array1d rand_s_1)) rand_h_2 rand_s_2 g
    = (Ok self, g') ->
  length rand_h_1 <> C1 -> 0 < C1 -> 0 < C2 ->
  size bottom1 = [B1; C1; H1; W1] -> size bottom2 = [B2; C2; H2; W2] ->
  forward self bottom1 bottom2 = Raise RuntimeError.
Proof.
  intros E Hlen HC1 HC2 Hb1 Hb2. unfold Cbp.__init__ in E.
  apply bindM_ok_inv in E as (h1 & ga & Eh1 & E).
  apply bindM_ok_inv in E as (s1 & gb & Es1 & E).
  apply bindM_ok_inv in E as (m1 & gc & Em1 & E).
  apply bindM_ok_inv in E as (h2 & gd & _ & E).
  apply bindM_ok_inv in E as (s2 & ge & _ & E).
  apply bindM_ok_inv in E as (m2 & gf & _ & E).
  injection E as <- _.
  injection Eh1 as <- _. injection Es1 as <- _.
  unfold lift in Em1. injection Em1 as Em1 _.
  apply generate_sketch_matrix_size in Em1 as [Em1 _].
  unfold Cbp.forward, size_at. rewrite Hb1, Hb2. simpl nth_error. cbn iota.
  simpl bind at 1. cbn [input_dim1 input_dim2].
  rewrite !Z.eqb_refl. simpl bind at 1. simpl bind at 1.
  unfold Cbp.permute_0231. rewrite Hb1, Hb2.
  cbn [bind].
  rewrite (view_rows_ok _ B1 H1 W1 C1) by (reflexivity || assumption).
  cbn [bind].
  rewrite (view_rows_ok _ B2 H2 W2 C2) by (reflexivity || assumption).
  cbn [bind sparse_sketch_matrix1].
  unfold Cbp.mm at 1. cbn [size]. rewrite Em1.
  destruct (Nat.eqb_spec C1 (length rand_h_1)); [congruence | reflexivity].
Qed.

(** X10: construction from four 1-D numpy arrays followed by [forward]:
    for positive input dimensions, index arrays of those lengths with
    entries in [[0, D)] and sign arrays of the same lengths, [__init__]
    returns an instance and leaves the generator as it was, and [forward]
    on inputs of sizes [B; C1; H; W] and [B; C2; H; W] returns a tensor of
    size [B; D] ([sum_pool]) or [B; H; W; D]. *)
Theorem X10_supplied_construction_then_forward
    (C1 C2 D B H W : nat) (pool : bool) (g : generator)
    (rand_h_1 : list Z) (rand_s_1 : list R)
    (rand_h_2 : list Z) (rand_s_2 : list R)
    (bottom1 bottom2 : Tensor R) :
  0 < C1 -> 0 < C2 ->
  length rand_h_1 = C1 -> length rand_s_1 = C1 ->
  length rand_h_2 = C2 -> length rand_s_2 = C2 ->
  (forall h, In h rand_h_1 -> (0 <= h < Z.of_nat D)%Z) ->
  (forall h, In h rand_h_2 -> (0 <= h < Z.of_nat D)%Z) ->
  size bottom1 = [B; C1; H; W] -> size bottom2 = [B; C2; H; W] ->
  exists self out,
    __init__ (Z.of_nat C1) (Z.of_nat C2) (Z.of_nat D) pool
      (Some (array1d rand_h_1)) (Some (array1d rand_s_1))
      (Some (array1d rand_h_2)) (Some (array1d rand_s_2)) g = (Ok self, g) /\
    forward self bottom1 bottom2 = Ok out /\
    size out = (if pool then [B; D] else [B; H; W; D]).
Proof.
  intros HC1 HC2 Hh1 Hs1 Hh2 Hs2 Hr1 Hr2 Hb1 Hb2.
  assert (Einit :
    __init__ (Z.of_nat C1) (Z.of_nat C2) (Z.of_nat D) pool
      (Some (array1d rand_h_1)) (Some (array1d rand_s_1))
      (Some (array1d rand_h_2)) (Some (array1d rand_s_2)) g
    = (Ok (mkCBP (Z.of_nat C1) (Z.of_nat C2) (Z.of_nat D) pool
             (to_dense (combine (seq 0 (length rand_h_1))
                                (map Z.to_nat rand_h_1))
                       rand_s_1 (length rand_h_1) (Z.to_nat (Z.of_nat D)))
             (to_dense (combine (seq 0 (length rand_h_2))
                                (map Z.to_nat rand_h_2))
                       rand_s_2 (length rand_h_2) (Z.to_nat (Z.of_nat D)))),
       g)).
  { unfold Cbp.__init__, bindM, retM, lift.
    rewrite !generate_sketch_matrix_ok by (congruence || assumption || lia).
    reflexivity. }
  destruct (init_valid C1 C2 D pool rand_h_1 rand_s_1 rand_h_2 rand_s_2
              g g _ HC1 HC2 Hh1 Hh2 Einit) as [Hv Hp].
  do 2 eexists. split; [exact Einit|].
  split; [apply (forward_table _ C1 C2 D B H W _ _ Hv Hb1 Hb2)|].
  cbn [sum_pool]. destruct pool; reflexivity.
Qed.

Lemma randint_cases (high n : Z) (g : generator) :
  (exists shape data g',
     randint mt_stream high n g = (Ok (TorchTensor shape data), g')) \/
  (exists g', randint mt_stream high n g = (Raise RuntimeError, g')).
Proof.
  unfold randint. destruct ((high <=? 0)%Z || (n <? 0)%Z).
  - right. now exists g.
  - left. do 3 eexists. reflexivity.
Qed.

(** X11: an instance is returned only when all four sequences are
    supplied: with any of them left to its default, whatever the
    dimensions, construction raises. *)
Theorem X11_no_instance_with_a_defaulted_sequence
    (input_dim1 input_dim2 output_dim : Z) (pool : bool)
    (rand_h_1 : option (array Z)) (rand_s_1 : option (array R))
    (rand_h_2 : option (array Z)) (rand_s_2 : option (array R))
    (g : generator) :
  rand_h_1 = None \/ rand_s_1 = None \/ rand_h_2 = None \/ rand_s_2 = None ->
  is_ok (fst (__init__ input_dim1 input_dim2 output_dim pool
                rand_h_1 rand_s_1 rand_h_2 rand_s_2 g)) = false.
Proof.
  intros Hnone.
  unfold Cbp.__init__, bindM, manual_seed, retM, lift.
  destruct rand_h_1 as [h1|], rand_s_1 as [s1|].
  2-4: repeat match goal with
       | |- context [randint mt_stream ?h ?n ?g0] =>
           destruct (randint_cases h n g0) as [(? & ? & ? & ->) | (? & ->)];
           cbn [array_map]
       end;
       rewrite ?generate_sketch_matrix_tensor_s,
         ?generate_sketch_matrix_tensor_h; reflexivity.
  destruct (generate_sketch_matrix h1 s1 output_dim); [| reflexivity].
  destruct rand_h_2 as [h2|], rand_s_2 as [s2|].
  2-4: repeat match goal with
       | |- context [randint mt_stream ?h ?n ?g0] =>
           destruct (randint_cases h n g0) as [(? & ? & ? & ->) | (? & ->)];
           cbn [array_map]
       end;
       rewrite ?generate_sketch_matrix_tensor_s,
         ?generate_sketch_matrix_tensor_h; reflexivity.
  destruct Hnone as [? | [? | [? | ?]]]; discriminate.
Qed.

(** ** Output dimension 2 *)

Lemma idft_product_2 (s t : nat -> R) (j : nat) :
  (forall m, cos2pi 2 m = if Nat.even m then 1%R else (- (1))%R) ->
  (forall m, sin2pi 2 m = 0%R) ->
  (inv_n 2 * (1 + 1))%R = 1%R ->
  j < 2 ->
  idft_product 2 s t j = get (circular_convolution 2 (tab 2 s) (tab 2 t)) j.
Proof.
  intros Hcos Hsin Hinv Hj.
  unfold Cbp.circular_convolution. rewrite get_tab by assumption.
  unfold Cbp.idft_product, Cbp.product_re, Cbp.product_im,
    Cbp.dft_re, Cbp.dft_im, Cbp.rsum.
  cbn [seq fold_right].
  rewrite !Hsin, !Hcos.
  rewrite !(get_tab 2 s), !(get_tab 2 t)
    by (try lia; apply Nat.mod_upper_bound; lia).
  assert (Hcancel : forall a : R, (inv_n 2 * ((1 + 1) * a))%R = a).
  { intros a. transitivity (inv_n 2 * (1 + 1) * a)%R; [ring|].
    rewrite Hinv. ring. }
  destruct j as [|[|j]]; [| | lia]; cbn.
  - rewrite <- (Hcancel (s 0%nat * t 0%nat + (s 1%nat * t 1%nat + 0))%R).
    f_equal. ring.
  - rewrite <- (Hcancel (s 0%nat * t 1%nat + (s 1%nat * t 0%nat + 0))%R).
    f_equal. ring.
Qed.

(** X12: for [output_dim = 2] the transform has no sine terms, and
    [forward] computes exactly the circular convolution of the two count
    sketches at every location, under the field facts of the transform of
    length 2. *)
Theorem X12_output_dim_2_is_circular_convolution
    (self : CompactBilinearPooling R) (C1 C2 B H W : nat)
    (bottom1 bottom2 : Tensor R) :
  (forall m, cos2pi 2 m = if Nat.even m then 1%R else (- (1))%R) ->
  (forall m, sin2pi 2 m = 0%R) ->
  (inv_n 2 * (1 + 1))%R = 1%R ->
  valid_instance self C1 C2 2 -> sum_pool self = false ->
  size bottom1 = [B; C1; H; W] -> size bottom2 = [B; C2; H; W] ->
  exists out,
    forward self bottom1 bottom2 = Ok out /\
    forall b h w d, b < B -> h < H -> w < W -> d < 2 ->
      at4 out H W 2 b h w d =
      get (circular_convolution 2
             (tab 2 (sketch_entry (sparse_sketch_matrix1 self) C1 2
                       (fun c => at4 bottom1 C1 H W b c h w)))
             (tab 2 (sketch_entry (sparse_sketch_matrix2 self) C2 2
                       (fun c => at4 bottom2 C2 H W b c h w)))) d.
Proof.
  intros Hcos Hsin Hinv Hv Hp Hb1 Hb2.
  eexists. split;
    [apply (forward_unpooled self C1 C2 2 B H W _ _ Hv Hp Hb1 Hb2)|].
  intros b h w d Hb Hh Hw Hd. rewrite at4_table by assumption.
  unfold Cbp.cbp_table, Cbp.cbp_entry.
  rewrite <- (idft_product_2 _ _ d Hcos Hsin Hinv Hd).
  apply idft_product_ext; intros j Hj; apply sketch_entry_ext; intros c Hc;
    now apply channel_vector_at.
Qed.

End Theory.

(** * The layer on concrete inputs *)

Module Runs.

Import Rational.

Lemma layer4_constructed (pool : bool) :
  init 1 1 4 pool (Some (array1d [1%Z])) (Some (array1d [q 1]))
       (Some (array1d [0%Z])) (Some (array1d [q 1])) g0
  = (Ok (layer4 pool), g0).
Proof. destruct pool; vm_compute; reflexivity. Qed.

Lemma layer23_constructed (pool : bool) :
  init 2 3 4 pool
    (Some (array1d [1%Z; 3%Z])) (Some (array1d [q 1; q (-1)]))
    (Some (array1d [0%Z; 2%Z; 2%Z])) (Some (array1d [q (-1); q 1; q 1])) g0
  = (Ok (layer23 pool), g0).
Proof. destruct pool; vm_compute; reflexivity. Qed.

Lemma layer4_valid (pool : bool) : valid_instance (layer4 pool) 1 1 4.
Proof. unfold valid_instance. repeat split; try reflexivity; lia. Qed.

Lemma layer23_valid (pool : bool) : valid_instance (layer23 pool) 2 3 4.
Proof. unfold valid_instance. repeat split; try reflexivity; lia. Qed.

(** C1: on the sketches [0; 1; 0; 0] and [1; 0; 0; 0] (one location, one
    channel per input, [output_dim = 4]) the circular convolution is
    [0; 1; 0; 0], but [forward] returns [0; 1/2; 0; 1/2]. *)
Theorem C1_forward_is_not_circular_convolution :
  observe (mm (T [1; 1] [q 1]) (sparse_sketch_matrix1 (layer4 false)))
    = Ok ([1; 4], [0; 1; 0; 0]%Q) /\
  observe (mm (T [1; 1] [q 1]) (sparse_sketch_matrix2 (layer4 false)))
    = Ok ([1; 4], [1; 0; 0; 0]%Q) /\
  map this (circular_convolution 4 (map q [0; 1; 0; 0]%Z)
                                   (map q [1; 0; 0; 0]%Z))
    = [0; 1; 0; 0]%Q /\
  observe (forward (layer4 false) (T [1; 1; 1; 1] [q 1]) (T [1; 1; 1; 1] [q 1]))
    = Ok ([1; 1; 1; 4], [0; 1 # 2; 0; 1 # 2]%Q).
Proof. repeat split; vm_compute; reflexivity. Qed.

(** With the complex multiplication of the specification, steps 3 to 5
    give the circular convolution of any two rows of length 4. *)
Lemma inv_n_4 : inv_n 4 = (/ (1 + 1 + 1 + 1))%Qc.
Proof. unfold inv_n. apply f_equal. apply Qc_is_canon. reflexivity. Qed.

Lemma four_neq_0 : (1 + 1 + 1 + 1)%Qc <> 0%Qc.
Proof.
  intro H. apply (f_equal (fun x => Qnum (this x))) in H.
  vm_compute in H. discriminate.
Qed.

Lemma spec_product_is_circular_convolution_4
    (x0 x1 x2 x3 y0 y1 y2 y3 : Qc) :
  tab 4 (idft_product_spec 4 (get 0%Qc [x0; x1; x2; x3])
                             (get 0%Qc [y0; y1; y2; y3]))
  = circular_convolution 4 [x0; x1; x2; x3] [y0; y1; y2; y3].
Proof.
  unfold idft_product_spec, Cbp.idft_product_spec,
    circular_convolution, Cbp.circular_convolution.
  rewrite inv_n_4.
  cbv - [Qcplus Qcmult Qcminus Qcopp Qcinv Q2Qc].
  repeat (apply f_equal2; [field; exact four_neq_0 |]). reflexivity.
Qed.

(** C2, as stated, fails: inputs whose spatial sizes differ (2 by 1
    against 1 by 2), or whose batch sizes differ (2 against 1), pass the
    assertion and [forward] returns a tensor. *)
Lemma C2_counterexample_shapes_disagree :
  observe (forward (layer4 false) (T [1; 1; 2; 1] [q 1; q 2])
                                  (T [1; 1; 1; 2] [q 3; q 5]))
    = Ok ([1; 2; 1; 4], [0; 3 # 2; 0; 3 # 2; 0; 5; 0; 5]%Q) /\
  observe (forward (layer4 false) (T [2; 1; 1; 1] [q 1; q 2])
                                  (T [1; 1; 1; 1] [q 3]))
    = Ok ([2; 1; 1; 4], [0; 3 # 2; 0; 3 # 2; 0; 3; 0; 3]%Q).
Proof. split; vm_compute; reflexivity. Qed.

Lemma C2_witness :
  forward (layer4 false) (T [1; 2; 1; 1] [q 1; q 1]) (T [1; 1; 1; 1] [q 1])
  = Raise AssertionError.
Proof.
  apply (@C2_wrong_channel_dimension_raises
           Qc 0%Qc Qcplus Qcmult Qcminus cos2pi sin2pi inv_n
           (layer4 false) (T [1; 2; 1; 1] [q 1; q 1]) (T [1; 1; 1; 1] [q 1])
           2 1).
  - reflexivity.
  - reflexivity.
  - left. vm_compute. discriminate.
Defined.

(** C3, as stated, fails: a sign of 2 and the input dimensions -3 and 0
    are accepted, and the sign 2 is stored in the sketch matrix; and with
    empty sequences the output dimension 0 passes both assertions, so that
    no assertion error is raised. *)
Lemma C3_counterexample_sign_and_dimension_unchecked :
  (exists self,
     init (-3) 0 4 true (Some (array1d [0%Z])) (Some (array1d [q 2]))
          (Some (array1d [0%Z])) (Some (array1d [q 1])) g0
       = (Ok self, g0) /\
     input_dim1 self = (-3)%Z /\ input_dim2 self = 0%Z /\
     size (sparse_sketch_matrix1 self) = [1; 4] /\
     entries (sparse_sketch_matrix1 self) = [2; 0; 0; 0]%Q) /\
  fst (init 0 0 0 true (Some (array1d [])) (Some (array1d []))
            (Some (array1d [])) (Some (array1d [])) g0)
    <> Raise AssertionError.
Proof.
  split.
  - eexists. split; [vm_compute; reflexivity |].
    repeat split; vm_compute; reflexivity.
  - vm_compute. discriminate.
Qed.

Lemma C3_witness :
  init 1 1 4 true (Some (array1d [5%Z])) (Some (array1d [q 1]))
       (Some (array1d [0%Z])) (Some (array1d [q 1])) g0
  = (Raise AssertionError, g0).
Proof.
  apply (@C3_rejected_specs_raise Qc 0%Qc 1%Qc Qcplus Qcopp mt_stream
           1%Z 1%Z 4%Z true [5%Z] [q 1] [0%Z] [q 1] g0).
  left. right. exists 5%Z. split; [left; reflexivity | lia].
Defined.




Lemma C4_witness :
  exists out,
    forward (layer23 true) x223 z223 = Ok out /\
    size out = [1; 4] /\ tensor_wf out.
Proof.
  apply (@C4_forward_output_shape
           Qc 0%Qc Qcplus Qcmult Qcminus cos2pi sin2pi inv_n
           (layer23 true) 2 3 4 1 2 2 x223 z223).
  - unfold valid_instance. repeat split; try reflexivity; lia.
  - reflexivity.
  - reflexivity.
Defined.

Lemma C5_witness :
  exists pooled unpooled,
    forward (with_sum_pool true (layer23 true)) x223 z223 = Ok pooled /\
    forward (with_sum_pool false (layer23 true)) x223 z223 = Ok unpooled /\
    size pooled = [1; 4] /\ size unpooled = [1; 2; 2; 4] /\
    forall b d, b < 1 -> d < 4 ->
      at2 0%Qc pooled 4 b d =
      rsum 0%Qc Qcplus 2 (fun w =>
        rsum 0%Qc Qcplus 2 (fun h => at4 0%Qc unpooled 2 2 4 b h w d)).
Proof.
  apply (@C5_pooled_is_sum_of_unpooled
           Qc 0%Qc Qcplus Qcmult Qcminus cos2pi sin2pi inv_n
           (layer23 true) 2 3 4 1 2 2 x223 z223).
  - unfold valid_instance. repeat split; try reflexivity; lia.
  - reflexivity.
  - reflexivity.
Defined.

(** [x223] and [y223] agree at location [(0, 1, 0)] (entries 3 and 7) and
    differ elsewhere; so do [z223] and [t223] (entries -1, 0 and 1). *)
Lemma C8_witness :
  exists outx outy,
    forward (layer23 false) x223 z223 = Ok outx /\
    forward (layer23 false) y223 t223 = Ok outy /\
    forall d, d < 4 ->
      at4 0%Qc outx 2 2 4 0 1 0 d = at4 0%Qc outy 2 2 4 0 1 0 d.
Proof.
  apply (@C8_output_depends_on_location_only
           Qc 0%Qc Qcplus Qcmult Qcminus cos2pi sin2pi inv_n
           (layer23 false) 2 3 4 1 2 2 x223 z223 y223 t223 0 1 0).
  - unfold valid_instance. repeat split; try reflexivity; lia.
  - reflexivity.
  - reflexivity.
  - reflexivity.
  - reflexivity.
  - reflexivity.
  - lia.
  - lia.
  - lia.
  - intros [|[|c]] Hc; [reflexivity | reflexivity | lia].
  - intros [|[|[|c]]] Hc; [reflexivity | reflexivity | reflexivity | lia].
Defined.

Lemma C10_witness :
  exists oxz oyz oxt,
    forward (layer23 true) x223 z223 = Ok oxz /\
    forward (layer23 true) y223 z223 = Ok oyz /\
    forward (layer23 true) x223 t223 = Ok oxt /\
    forward (layer23 true) (tlin 0%Qc Qcplus Qcmult (q 3) x223 y223) z223
      = Ok (tlin 0%Qc Qcplus Qcmult (q 3) oxz oyz) /\
    forward (layer23 true) x223 (tlin 0%Qc Qcplus Qcmult (q 3) z223 t223)
      = Ok (tlin 0%Qc Qcplus Qcmult (q 3) oxz oxt).
Proof.
  apply (@C10_forward_bilinear
           Qc 0%Qc 1%Qc Qcplus Qcmult Qcminus Qcopp cos2pi sin2pi inv_n Qcrt
           (layer23 true) 2 3 4 1 2 2 (q 3) x223 y223 z223 t223).
  - unfold valid_instance. repeat split; try reflexivity; lia.
  - reflexivity.
  - reflexivity.
  - reflexivity.
  - reflexivity.
Defined.

Lemma C6_witness :
  exists m,
    generate_sketch_matrix (array1d [1%Z; 3%Z])
      (array1d [1%Qc; (- (1))%Qc]) 4 = Ok m /\
    size m = [2; 4] /\
    tensor_wf m /\
    forall i, i < 2 ->
      let D := 4 in
      let hi := Z.to_nat (nth i [1%Z; 3%Z] 0%Z) in
      hi < D /\
      at2 0%Qc m D i hi = nth i [1%Qc; (- (1))%Qc] 0%Qc /\
      (at2 0%Qc m D i hi = 1%Qc \/ at2 0%Qc m D i hi = (- (1))%Qc) /\
      at2 0%Qc m D i hi <> 0%Qc /\
      forall j, j < D -> j <> hi -> at2 0%Qc m D i j = 0%Qc.
Proof.
  apply (@C6_sketch_matrix_one_nonzero_per_row
           Qc 0%Qc 1%Qc Qcplus Qcmult Qcminus Qcopp Qcrt
           [1%Z; 3%Z] [1%Qc; (- (1))%Qc] 4%Z).
  - reflexivity.
  - intros h [<- | [<- | []]]; lia.
  - intros s [<- | [<- | []]]; [left | right]; reflexivity.
  - lia.
  - exact Q_apart_0_1.
Defined.

(** ** Instances of the further properties *)

Lemma X1_witness :
  exists out,
    forward (layer4 false) (T [1; 1; 2; 1] [q 1; q 2])
                           (T [1; 1; 1; 2] [q 3; q 5]) = Ok out /\
    size out = [1; 2; 1; 4].
Proof.
  edestruct (@X1_forward_pairs_locations_by_flat_position
               Qc 0%Qc Qcplus Qcmult Qcminus cos2pi sin2pi inv_n
               (layer4 false) 1 1 4 1 2 1 1 1 2
               (T [1; 1; 2; 1] [q 1; q 2]) (T [1; 1; 1; 2] [q 3; q 5]))
    as (out & Hout & Hsize & _).
  - unfold valid_instance. repeat split; try reflexivity; lia.
  - reflexivity.
  - reflexivity.
  - reflexivity.
  - left. reflexivity.
  - exists out. split; assumption.
Defined.

Lemma X2_witness :
  forward (layer4 false) (T [3; 1; 1; 1] [q 1; q 1; q 1])
                         (T [2; 1; 1; 1] [q 3; q 4]) = Raise RuntimeError.
Proof.
  apply (@X2_location_count_mismatch_raises
           Qc 0%Qc Qcplus Qcmult Qcminus cos2pi sin2pi inv_n
           (layer4 false) 1 1 4 3 1 1 2 1 1).
  - unfold valid_instance. repeat split; try reflexivity; lia.
  - lia.
  - reflexivity.
  - reflexivity.
  - vm_compute. discriminate.
  - vm_compute. discriminate.
Defined.

Lemma X3_witness :
  forward (layer4 false) (T [1; 2; 1; 1] [q 1; q 1]) (T [] [q 1])
  = Raise AssertionError.
Proof.
  apply (@X3_first_channel_check_ignores_bottom2
           Qc 0%Qc Qcplus Qcmult Qcminus cos2pi sin2pi inv_n
           (layer4 false) (T [1; 2; 1; 1] [q 1; q 1]) (T [] [q 1]) 2).
  - reflexivity.
  - vm_compute. discriminate.
Defined.

Lemma X4_witness :
  forward (layer4 false) (T [2; 1; 3] (map q [1; 2; 3; 4; 5; 6]%Z))
                         (T [1; 1; 1; 1] [q 1])
  = Raise ValueError.
Proof.
  apply (@X4_bottom1_not_4d_raises_value_error
           Qc 0%Qc Qcplus Qcmult Qcminus cos2pi sin2pi inv_n
           (layer4 false) (T [2; 1; 3] (map q [1; 2; 3; 4; 5; 6]%Z))
           (T [1; 1; 1; 1] [q 1]) 1 1).
  - reflexivity.
  - reflexivity.
  - reflexivity.
  - reflexivity.
  - vm_compute. discriminate.
Defined.

Lemma X5_witness :
  exists out,
    forward (layer23 true) x223 z223 = Ok out /\
    forward (swap_streams (layer23 true)) z223 x223 = Ok out.
Proof.
  apply (@X5_forward_symmetric_in_streams
           Qc 0%Qc 1%Qc Qcplus Qcmult Qcminus Qcopp cos2pi sin2pi inv_n Qcrt
           (layer23 true) 2 3 4 1 2 2 x223 z223).
  - unfold valid_instance. repeat split; try reflexivity; lia.
  - reflexivity.
  - reflexivity.
Defined.

Lemma X7_witness :
  exists out,
    mm (T [2; 3] (map q [1; 2; 3; 4; 5; 6]%Z))
       (sparse_sketch_matrix2 (layer23 true)) = Ok out /\
    size out = [2; 4].
Proof.
  edestruct (@X7_mm_with_sketch_matrix_is_count_sketch
               Qc 0%Qc 1%Qc Qcplus Qcmult Qcminus Qcopp Qcrt
               [0%Z; 2%Z; 2%Z] [q (-1); q 1; q 1] 4%Z
               (sparse_sketch_matrix2 (layer23 true))
               (T [2; 3] (map q [1; 2; 3; 4; 5; 6]%Z)) 2)
    as (out & Hout & Hsize & _).
  - vm_compute. reflexivity.
  - reflexivity.
  - exists out. split; assumption.
Defined.

Lemma X8_witness :
  fst (init 2 1 4 true (Some (array1d [0%Z; 1%Z])) None None None g0)
  = Raise AttributeError.
Proof.
  apply (@X8_defaulted_sequence_raises_attribute_error
           Qc 0%Qc 1%Qc Qcplus Qcopp mt_stream
           2%Z 1%Z 4%Z true (Some (array1d [0%Z; 1%Z])) None None None g0).
  - right. reflexivity.
  - lia.
  - lia.
Defined.

Lemma X9_witness :
  forward
    (constructed
       (init 2 1 4 false (Some (array1d [1%Z])) (Some (array1d [q 1]))
             (Some (array1d [0%Z])) (Some (array1d [q 1])) g0))
    (T [1; 2; 1; 1] [q 1; q 2]) (T [1; 1; 1; 1] [q 1])
  = Raise RuntimeError.
Proof.
  apply (@X9_supplied_pair_of_other_length_fails_in_mm
           Qc 0%Qc 1%Qc Qcplus Qcmult Qcminus Qcopp cos2pi sin2pi inv_n
           mt_stream 2 1 4%Z false [1%Z] [q 1]
           (Some (array1d [0%Z])) (Some (array1d [q 1]))
           g0 g0 _ 1 1 1 1 1 1).
  - vm_compute. reflexivity.
  - vm_compute. discriminate.
  - lia.
  - lia.
  - reflexivity.
  - reflexivity.
Defined.

Lemma X10_witness :
  exists self out,
    init 2 3 4 true
      (Some (array1d [1%Z; 3%Z])) (Some (array1d [q 1; q (-1)]))
      (Some (array1d [0%Z; 2%Z; 2%Z])) (Some (array1d [q (-1); q 1; q 1]))
      g0 = (Ok self, g0) /\
    forward self x223 z223 = Ok out /\
    size out = [1; 4].
Proof.
  apply (@X10_supplied_construction_then_forward
           Qc 0%Qc 1%Qc Qcplus Qcmult Qcminus Qcopp cos2pi sin2pi inv_n
           mt_stream 2 3 4 1 2 2 true g0
           [1%Z; 3%Z] [q 1; q (-1)] [0%Z; 2%Z; 2%Z] [q (-1); q 1; q 1]
           x223 z223).
  - lia.
  - lia.
  - reflexivity.
  - reflexivity.
  - reflexivity.
  - reflexivity.
  - intros h [<- | [<- | []]]; lia.
  - intros h [<- | [<- | [<- | []]]]; lia.
  - reflexivity.
  - reflexivity.
Defined.

Lemma X11_witness :
  is_ok (fst (init 2 3 4 true
                (Some (array1d [1%Z; 3%Z])) (Some (array1d [q 1; q (-1)]))
                (Some (array1d [0%Z; 2%Z; 2%Z])) None g0)) = false.
Proof.
  apply (@X11_no_instance_with_a_defaulted_sequence
           Qc 0%Qc 1%Qc Qcplus Qcopp mt_stream 2%Z 3%Z 4%Z true
           (Some (array1d [1%Z; 3%Z])) (Some (array1d [q 1; q (-1)]))
           (Some (array1d [0%Z; 2%Z; 2%Z])) None g0).
  right. right. right. reflexivity.
Defined.

Lemma X12_witness :
  exists out,
    forward layer2 (T [1; 1; 1; 2] [q 3; q 5]) (T [1; 1; 1; 2] [q 2; q 7])
      = Ok out.
Proof.
  edestruct (@X12_output_dim_2_is_circular_convolution
               Qc 0%Qc 1%Qc Qcplus Qcmult Qcminus Qcopp cos2pi sin2pi inv_n
               Qcrt layer2 1 1 1 1 2
               (T [1; 1; 1; 2] [q 3; q 5]) (T [1; 1; 1; 2] [q 2; q 7]))
    as (out & Hout & _).
  - intros m. reflexivity.
  - intros m. reflexivity.
  - apply Qc_is_canon. reflexivity.
  - unfold valid_instance. repeat split; try reflexivity; lia.
  - reflexivity.
  - reflexivity.
  - reflexivity.
  - exists out. assumption.
Defined.

End Runs.
